(** * Trip expense tracker: the ledger and settlement engine of [main.py]

    A shallow embedding of class [TripData] (participants, expenses,
    [calculate_balances], [get_settlements]) and of the two places of the
    user interface that prepare its inputs. Python exceptions are values of
    an error monad; the [dict] of balances is an insertion-ordered
    association list; amounts are binary64 floats ([PrimFloat]), with exact
    rationals as a second instance of the same arithmetic interface, used
    to state what holds when no rounding takes place. *)

From Stdlib Require Import ZArith QArith Qabs Lqa Lia Ascii String.
From Stdlib Require Import Floats.PrimFloat Floats.FloatOps Floats.SpecFloat.
From Stdlib Require Import Numbers.Cyclic.Int63.Uint63.
From stdpp Require Import base list strings.

Set Warnings "-inexact-float".
Set Default Proof Using "Type".
Open Scope string_scope.
Open Scope list_scope.

(** ** Python exceptions *)

Inductive PyError : Type :=
| ZeroDivisionError
| KeyError (key : string)
| ValueError.

Inductive Result (T : Type) : Type :=
| Ok (v : T)
| Raise (e : PyError).
Arguments Ok {T} v.
Arguments Raise {T} e.

#[global] Instance Result_ret : MRet Result := fun _ v => Ok v.
#[global] Instance Result_bind : MBind Result := fun _ _ f m =>
  match m with
  | Ok v => f v
  | Raise e => Raise e
  end.

(** [for x in xs: s = body(s, x)], where the body may raise. *)
Fixpoint for_each {S X : Type} (body : S -> X -> Result S) (xs : list X) (s : S)
  : Result S :=
  match xs with
  | [] => Ok s
  | x :: xs' => s' ← body s x; for_each body xs' s'
  end.

(** ** Arithmetic of amounts

    The operations [calculate_balances] and [get_settlements] apply to an
    amount: [+=], [-=], unary minus, [/ len(...)], [<], [<=], the literal
    [0.01] and [round(_, 2)]. *)

Class Amount (A : Type) : Type := {
  fzero : A;
  fcent : A;
  fadd : A -> A -> A;
  fsub : A -> A -> A;
  fneg : A -> A;
  fdiv_len : A -> nat -> A;
  flt : A -> A -> bool;
  fle : A -> A -> bool;
  fround2 : A -> A
}.

(** [min(a, b)] of Python: the first argument unless the second is
    strictly smaller. *)
Definition py_min `{Amount A} (a b : A) : A := if flt b a then b else a.

(** [x / n] for an [int] [n]: [ZeroDivisionError] when [n] is zero. *)
Definition py_div `{Amount A} (x : A) (n : nat) : Result A :=
  match n with
  | O => Raise ZeroDivisionError
  | _ => Ok (fdiv_len x n)
  end.

(** Nearest integer to [n / d], ties to the even one ([0 <= n], [0 < d]). *)
Definition round_half_even_div (n d : Z) : Z :=
  let q := (n / d)%Z in
  match (2 * (n mod d) ?= d)%Z with
  | Lt => q
  | Gt => (q + 1)%Z
  | Eq => if Z.even q then q else (q + 1)%Z
  end.

(** *** binary64: the arithmetic the program runs on *)

Definition float_of_nat (n : nat) : float :=
  PrimFloat.of_uint63 (Uint63.of_Z (Z.of_nat n)).

(** [round(x, 2)] of CPython: the decimal with two fractional digits that
    is nearest to the exact value of [x] (ties to even), converted back to
    the nearest double. From [2^46] on a double is further than 0.005 from
    its neighbours (or is an integer), so it is returned as it is; below,
    the number of hundredths is less than [2^53] and its quotient by
    [100.0] is correctly rounded. *)
Definition py_round2 (x : float) : float :=
  match Prim2SF x with
  | S754_finite s m e =>
      if (-6 <=? e)%Z then x
      else
        let n := round_half_even_div (Z.pos m * 100) (2 ^ (- e)) in
        let r := PrimFloat.div (PrimFloat.of_uint63 (Uint63.of_Z n)) 100%float in
        if s then PrimFloat.opp r else r
  | _ => x
  end.

#[global] Instance float_amount : Amount float := {|
  fzero := 0%float;
  fcent := 0.01%float;
  fadd := PrimFloat.add;
  fsub := PrimFloat.sub;
  fneg := PrimFloat.opp;
  fdiv_len := fun x n => PrimFloat.div x (float_of_nat n);
  flt := PrimFloat.ltb;
  fle := PrimFloat.leb;
  fround2 := py_round2
|}.

(** *** exact rationals: the same operations without rounding error *)

Definition Qltb (x y : Q) : bool := negb (Qle_bool y x).

Definition Qround2 (x : Q) : Q :=
  let n := (Qnum x * 100)%Z in
  let d := Z.pos (Qden x) in
  if (0 <=? n)%Z then round_half_even_div n d # 100
  else (- round_half_even_div (- n) d) # 100.

#[global] Instance Q_amount : Amount Q := {|
  fzero := 0%Q;
  fcent := (1 # 100)%Q;
  fadd := Qplus;
  fsub := Qminus;
  fneg := Qopp;
  fdiv_len := fun x n => (x / inject_Z (Z.of_nat n))%Q;
  flt := Qltb;
  fle := Qle_bool;
  fround2 := Qround2
|}.

(** ** Dictionaries in insertion order *)

Definition dict (V : Type) : Type := list (string * V).

Fixpoint dict_get {V : Type} (k : string) (d : dict V) : option V :=
  match d with
  | [] => None
  | (k', v) :: d' => if decide (k = k') then Some v else dict_get k d'
  end.

(** [d[k] = v]: an existing key keeps its position, a new one goes last. *)
Fixpoint dict_set {V : Type} (k : string) (v : V) (d : dict V) : dict V :=
  match d with
  | [] => [(k, v)]
  | (k', v') :: d' =>
      if decide (k = k') then (k, v) :: d' else (k', v') :: dict_set k v d'
  end.

Definition dict_keys {V : Type} (d : dict V) : list string := d.*1.
Definition dict_values {V : Type} (d : dict V) : list V := d.*2.

(** [{k: v for k in ks}] *)
Definition dict_from_keys {V : Type} (ks : list string) (v : V) : dict V :=
  fold_left (fun d k => dict_set k v d) ks [].

(** [d[k] = f(d[k])], as in [d[k] += x]: reading a missing key raises. *)
Definition dict_modify {V : Type} (k : string) (f : V -> V) (d : dict V)
  : Result (dict V) :=
  match dict_get k d with
  | None => Raise (KeyError k)
  | Some v => Ok (dict_set k (f v) d)
  end.

(** ** Lists of names *)

(** [l.remove(x)]: drops the first occurrence, [ValueError] if there is none. *)
Fixpoint py_list_remove (x : string) (l : list string) : Result (list string) :=
  match l with
  | [] => Raise ValueError
  | y :: l' =>
      if decide (x = y) then Ok l'
      else l'' ← py_list_remove x l'; Ok (y :: l'')
  end.

(** [if x in l: l.remove(x)] *)
Definition discard (x : string) (l : list string) : Result (list string) :=
  if bool_decide (x ∈ l) then py_list_remove x l else Ok l.

(** [s.strip()] on byte strings: the ASCII characters for which
    [str.isspace] holds are removed at both ends. *)
Definition is_space (c : ascii) : bool :=
  let n := nat_of_ascii c in
  (((9 <=? n) && (n <=? 13)) || ((28 <=? n) && (n <=? 32)))%nat.

Fixpoint lstrip (s : string) : string :=
  match s with
  | String c s' => if is_space c then lstrip s' else s
  | EmptyString => EmptyString
  end.

Fixpoint rstrip (s : string) : string :=
  match s with
  | String c s' =>
      match rstrip s' with
      | EmptyString => if is_space c then EmptyString else String c EmptyString
      | t => String c t
      end
  | EmptyString => EmptyString
  end.

Definition strip (s : string) : string := rstrip (lstrip s).

(** ** The ledger: class [TripData] *)

Section Ledger.
Context {A : Type} `{Amount A}.

Record Expense : Type := {
  expense_id : Z;
  description : string;
  amount : A;
  paid_by : list string;
  split_among : list string;
  category : string;
  date : string
}.

Record TripData : Type := {
  trip_name : string;
  participants : list string;
  expenses : list Expense
}.

Record Settlement : Type := {
  s_from : string;
  s_to : string;
  s_amount : A
}.

(** What a caller hands over as [amount]: a number, or the text of the
    amount field. *)
Inductive PyArg : Type :=
| PyNum (x : A)
| PyStr (s : string).

(** [float(_)] of a string is Python's own parser, taken as a parameter:
    [None] stands for the [ValueError] of an unparseable text. *)
Variable float_of_string : string -> option A.

Definition py_float (a : PyArg) : Result A :=
  match a with
  | PyNum x => Ok x
  | PyStr s =>
      match float_of_string s with
      | Some x => Ok x
      | None => Raise ValueError
      end
  end.

Definition reset_trip : TripData :=
  {| trip_name := ""; participants := []; expenses := [] |}.

(** [add_participant]: [if name and name not in self.participants] *)
Definition add_participant (name : string) (st : TripData) : bool * TripData :=
  if negb (String.eqb name "") && negb (bool_decide (name ∈ participants st))
  then (true, {| trip_name := trip_name st;
                 participants := participants st ++ [name];
                 expenses := expenses st |})
  else (false, st).

(** The body of the loop of [remove_participant] on one expense. The
    name lists are values here: the screen builds fresh lists for every
    expense, and on lists without repetitions a list shared by two fields
    would come out of the guarded removals the same. *)
Definition drop_from_expense (name : string) (e : Expense) : Result Expense :=
  pb ← discard name (paid_by e);
  sa ← discard name (split_among e);
  Ok {| expense_id := expense_id e; description := description e;
        amount := amount e; paid_by := pb; split_among := sa;
        category := category e; date := date e |}.

Fixpoint drop_from_expenses (name : string) (es : list Expense)
  : Result (list Expense) :=
  match es with
  | [] => Ok []
  | e :: es' =>
      e' ← drop_from_expense name e;
      es'' ← drop_from_expenses name es';
      Ok (e' :: es'')
  end.

Definition remove_participant (name : string) (st : TripData)
  : Result (bool * TripData) :=
  if bool_decide (name ∈ participants st) then
    ps ← py_list_remove name (participants st);
    es ← drop_from_expenses name (expenses st);
    Ok (true, {| trip_name := trip_name st; participants := ps; expenses := es |})
  else Ok (false, st).

(** [add_expense]; [now] is the text of [datetime.now()], and the write
    of [save_data] to the data file is outside the ledger state. *)
Definition add_expense (description : string) (amount : PyArg)
    (paid_by split_among : list string) (category now : string)
    (st : TripData) : Result (Expense * TripData) :=
  a ← py_float amount;
  let expense :=
    {| expense_id := (Z.of_nat (length (expenses st)) + 1)%Z;
       description := description; amount := a;
       paid_by := paid_by; split_among := split_among;
       category := category; date := now |} in
  Ok (expense, {| trip_name := trip_name st;
                  participants := participants st;
                  expenses := expenses st ++ [expense] |}).

(** [remove_expense]: [[e for e in self.expenses if e['id'] != expense_id]]
    (and the write of [save_data], as above). *)
Definition remove_expense (id : Z) (st : TripData) : TripData :=
  {| trip_name := trip_name st;
     participants := participants st;
     expenses := filter (fun e => expense_id e ≠ id) (expenses st) |}.

(** [balances[payer] += expense['amount'] / len(expense['paid_by'])]:
    the item is read (a missing key raises), then the share is computed. *)
Definition credit_payer (e : Expense) (balances : dict A) (payer : string)
  : Result (dict A) :=
  match dict_get payer balances with
  | None => Raise (KeyError payer)
  | Some b =>
      share ← py_div (amount e) (length (paid_by e));
      Ok (dict_set payer (fadd b share) balances)
  end.

(** [balances[person] -= amount_per_person] *)
Definition debit_person (amount_per_person : A) (balances : dict A)
    (person : string) : Result (dict A) :=
  dict_modify person (fun b => fsub b amount_per_person) balances.

(** The body of the loop over the expenses. *)
Definition account_expense (balances : dict A) (e : Expense) : Result (dict A) :=
  amount_per_person ← py_div (amount e) (length (split_among e));
  balances1 ← for_each (credit_payer e) (paid_by e) balances;
  for_each (debit_person amount_per_person) (split_among e) balances1.

Definition calculate_balances (st : TripData) : Result (dict A) :=
  for_each account_expense (expenses st) (dict_from_keys (participants st) fzero).

(** *** [get_settlements] *)

Definition creditors_of (balances : dict A) : list (string * A) :=
  omap (fun '(person, a) => if flt fcent a then Some (person, a) else None)
       balances.

Definition debtors_of (balances : dict A) : list (string * A) :=
  omap (fun '(person, a) =>
          if flt a (fneg fcent) then Some (person, fneg a) else None)
       balances.

(** The variables the two loops share; [remaining_debt] is assigned at
    the start of every round of the outer loop. *)
Record Sweep : Type := {
  creditors : list (string * A);
  remaining_debt : A;
  settlements : list Settlement
}.

(** [for i, (creditor_name, credit_amount) in enumerate(creditors)], from
    index [i] on: the list is read at each step, after the assignments
    [creditors[i] = ...] of the steps before; [fuel] bounds the steps by
    the length of the list, which no step changes. *)
Fixpoint creditor_loop (fuel i : nat) (debtor_name : string) (s : Sweep) : Sweep :=
  match fuel with
  | O => s
  | S fuel' =>
      match creditors s !! i with
      | None => s
      | Some (creditor_name, credit_amount) =>
          if fle (remaining_debt s) fcent then s
          else
            let settlement_amount := py_min (remaining_debt s) credit_amount in
            if flt fcent settlement_amount then
              creditor_loop fuel' (S i) debtor_name
                {| creditors :=
                     <[i := (creditor_name, fsub credit_amount settlement_amount)]>
                       (creditors s);
                   remaining_debt := fsub (remaining_debt s) settlement_amount;
                   settlements :=
                     settlements s ++
                       [{| s_from := debtor_name; s_to := creditor_name;
                           s_amount := fround2 settlement_amount |}] |}
            else creditor_loop fuel' (S i) debtor_name s
      end
  end.

(** One round of [for debtor_name, debt_amount in debtors]. *)
Definition debtor_step (s : Sweep) (debtor : string * A) : Sweep :=
  creditor_loop (length (creditors s)) 0 debtor.1
    {| creditors := creditors s;
       remaining_debt := debtor.2;
       settlements := settlements s |}.

Definition sweep (balances : dict A) : Sweep :=
  fold_left debtor_step (debtors_of balances)
    {| creditors := creditors_of balances;
       remaining_debt := fzero;
       settlements := [] |}.

Definition settle (balances : dict A) : list Settlement :=
  settlements (sweep balances).

Definition get_settlements (st : TripData) : Result (list Settlement) :=
  balances ← calculate_balances st;
  Ok (settle balances).

End Ledger.

Arguments Expense A : clear implicits.
Arguments TripData A : clear implicits.
Arguments Settlement A : clear implicits.
Arguments PyArg A : clear implicits.
Arguments Sweep A : clear implicits.

(** [MainScreen.add_participant]: the text of the input field is stripped
    before the ledger sees it. *)
Definition MainScreen_add_participant {A : Type} (text : string) (st : TripData A)
  : bool * TripData A :=
  add_participant (strip text) st.

(** ** Sample ledgers (binary64) *)

Definition no_parser : string -> option float := fun _ => None.

Definition mk_expense (id : Z) (a : float) (pb sa : list string) : Expense float :=
  {| expense_id := id; description := "item"; amount := a;
     paid_by := pb; split_among := sa; category := "General";
     date := "2024-01-01 12:00" |}.

Definition mk_trip {A : Type} (ps : list string) (es : list (Expense A)) : TripData A :=
  {| trip_name := ""; participants := ps; expenses := es |}.

(** Scenario A of the specification. *)
Definition scenario_A : TripData float :=
  mk_trip ["Alice"; "Bob"] [mk_expense 1 100 ["Alice"] ["Alice"; "Bob"]].

(** A ledger built through the interface alone: two expenses, the first
    deleted, a third added. *)
Definition after_delete_and_add : Result (TripData float) :=
  '(_, s1) ← add_expense no_parser "taxi" (PyNum 10%float) ["Alice"] ["Alice"]
                "General" "2024-01-01 12:00" (mk_trip ["Alice"] []);
  '(_, s2) ← add_expense no_parser "lunch" (PyNum 20%float) ["Alice"] ["Alice"]
                "General" "2024-01-01 12:05" s1;
  '(_, s3) ← add_expense no_parser "museum" (PyNum 30%float) ["Alice"] ["Alice"]
                "General" "2024-01-01 12:10" (remove_expense 1 s2);
  Ok s3.

(** A ledger built through the interface alone: Bob, the only one an
    expense is split among, is removed. *)
Definition after_sharer_removed : Result (TripData float) :=
  let s0 := (add_participant "Bob" (add_participant "Alice" reset_trip).2).2 in
  '(_, s1) ← add_expense no_parser "taxi" (PyNum 100%float) ["Alice"] ["Bob"]
                "General" "2024-01-01 12:00" s0;
  '(_, s2) ← remove_participant "Bob" s1;
  Ok s2.

(** The states the specification calls well formed: names are sets. *)
Definition names_are_sets {A : Type} (st : TripData A) : Prop :=
  NoDup (participants st) ∧
  Forall (fun e => NoDup (paid_by e) ∧ NoDup (split_among e)) (expenses st).

#[global] Instance names_are_sets_dec {A : Type} (st : TripData A) :
  Decision (names_are_sets st).
Proof. unfold names_are_sets. apply _. Defined.

(** An expense as it was, with [name] struck from both of its name lists. *)
Definition without_name {A : Type} (name : string) (e e' : Expense A) : Prop :=
  expense_id e' = expense_id e ∧ description e' = description e ∧
  amount e' = amount e ∧ category e' = category e ∧ date e' = date e ∧
  paid_by e' = filter (fun x => x ≠ name) (paid_by e) ∧
  split_among e' = filter (fun x => x ≠ name) (split_among e).

(** The expense [add_expense] builds from an amount already a number. *)
Definition new_expense {A : Type} (d : string) (x : A) (pb sa : list string)
    (c now : string) (st : TripData A) : Expense A :=
  {| expense_id := (Z.of_nat (length (expenses st)) + 1)%Z;
     description := d; amount := x; paid_by := pb; split_among := sa;
     category := c; date := now |}.


(** ** The balance of one participant, two ways *)

Section BalanceFormula.
Context {A : Type} `{Amount A}.

Definition payer_share (e : Expense A) : A :=
  fdiv_len (amount e) (length (paid_by e)).

Definition sharer_share (e : Expense A) : A :=
  fdiv_len (amount e) (length (split_among e)).

(** What one expense does to the balance [b] of [p]: the payer's share is
    added first, the sharer's share subtracted after. *)
Definition accrue (p : string) (b : A) (e : Expense A) : A :=
  let b1 := if bool_decide (p ∈ paid_by e) then fadd b (payer_share e) else b in
  if bool_decide (p ∈ split_among e) then fsub b1 (sharer_share e) else b1.

(** The balance of [p] accumulated expense by expense from [0.0]. *)
Definition running_balance (p : string) (es : list (Expense A)) : A :=
  fold_left (accrue p) es fzero.

(** The formula of the specification: the sum of the shares [p] paid
    minus the sum of the shares [p] owes, each sum taken in the order of
    the expenses. *)
Definition fsum (xs : list A) : A := fold_left fadd xs fzero.

Definition paid_total (p : string) (es : list (Expense A)) : A :=
  fsum (payer_share <$> filter (fun e => p ∈ paid_by e) es).

Definition owed_total (p : string) (es : list (Expense A)) : A :=
  fsum (sharer_share <$> filter (fun e => p ∈ split_among e) es).

Definition balance_formula (p : string) (es : list (Expense A)) : A :=
  fsub (paid_total p es) (owed_total p es).

(** An expense as the specification wants it at creation: both name
    lists non-empty and drawn from the roster. *)
Definition expense_within (roster : list string) (e : Expense A) : Prop :=
  paid_by e ≠ [] ∧ split_among e ≠ [] ∧
  paid_by e ⊆ roster ∧ split_among e ⊆ roster.

(** What [calculate_balances] needs in order not to raise on an expense. *)
Definition expense_accountable (roster : list string) (e : Expense A) : Prop :=
  split_among e ≠ [] ∧ paid_by e ⊆ roster ∧ split_among e ⊆ roster.

#[global] Instance expense_within_dec roster e : Decision (expense_within roster e).
Proof. unfold expense_within. apply _. Defined.

#[global] Instance expense_accountable_dec roster e :
  Decision (expense_accountable roster e).
Proof. unfold expense_accountable. apply _. Defined.

End BalanceFormula.

(** Three expenses whose amounts differ by sixteen orders of magnitude,
    over any arithmetic that has the integers. *)
Definition uneven_trip {A : Type} (num : Z -> A) : TripData A :=
  let expense id a pb sa :=
    {| expense_id := id; description := "item"; amount := num a;
       paid_by := pb; split_among := sa; category := "General";
       date := "2024-01-01 12:00" |} in
  mk_trip ["Alice"; "Bob"]
    [expense 1%Z 1%Z ["Alice"] ["Bob"];
     expense 2%Z (10 ^ 16)%Z ["Alice"] ["Alice"];
     expense 3%Z 1%Z ["Alice"] ["Bob"]].

Definition float_of_Z (z : Z) : float := PrimFloat.of_uint63 (Uint63.of_Z z).

(** ** Conservation *)

(** The sum of all balances, in the order of the dictionary. *)
Definition total_balance {A : Type} `{Amount A} (d : dict A) : A :=
  fsum (dict_values d).

(** [abs(x) <= 0.01], spelled with the two comparisons. *)
Definition within_cent {A : Type} `{Amount A} (x : A) : bool :=
  fle (fneg fcent) x && fle x fcent.

(** A ledger built through the interface alone: Alice, the only payer of
    an expense, is removed. *)
Definition after_payer_removed : Result (TripData float) :=
  let s0 := (add_participant "Bob" (add_participant "Alice" reset_trip).2).2 in
  '(_, s1) ← add_expense no_parser "taxi" (PyNum 100%float) ["Alice"] ["Bob"]
                "General" "2024-01-01 12:00" s0;
  '(_, s2) ← remove_participant "Alice" s1;
  Ok s2.

(** ** The greedy settlement, as the specification words it *)

Section Greedy.
Context {A : Type} `{Amount A}.

(** The balance the mapping gives to [p]. *)
Definition balance_of (balances : dict A) (p : string) : A :=
  default fzero (dict_get p balances).

(** Creditors and debtors, each in the order of the roster. *)
Definition roster_creditors (roster : list string) (bal : string -> A)
  : list (string * A) :=
  (fun p => (p, bal p)) <$> filter (fun p => flt fcent (bal p) = true) roster.

Definition roster_debtors (roster : list string) (bal : string -> A)
  : list (string * A) :=
  (fun p => (p, fneg (bal p)))
    <$> filter (fun p => flt (bal p) (fneg fcent) = true) roster.

Definition record (debtor creditor : string) (transfer : A) : Settlement A :=
  {| s_from := debtor; s_to := creditor; s_amount := fround2 transfer |}.

(** One debtor against the creditors in order, read to the letter: while
    the remaining debt exceeds 0.01 every creditor met gives
    [min(debt, credit)], which is recorded only when it exceeds 0.01.
    The result is the creditor list with its credits decremented, and the
    records. *)
Fixpoint scan_always_transfers (debtor : string) (debt : A) (cs : list (string * A))
  : list (string * A) * list (Settlement A) :=
  match cs with
  | [] => ([], [])
  | (creditor, credit) :: rest =>
      if fle debt fcent then (cs, [])
      else
        let transfer := py_min debt credit in
        let '(rest', records) :=
          scan_always_transfers debtor (fsub debt transfer) rest in
        ((creditor, fsub credit transfer) :: rest',
         (if flt fcent transfer then [record debtor creditor transfer] else [])
           ++ records)
  end.

(** The same scan when a transfer takes place only if it exceeds 0.01: a
    smaller one leaves the debt and the credit as they are. *)
Fixpoint scan_transfers_above_cent (debtor : string) (debt : A)
    (cs : list (string * A)) : list (string * A) * list (Settlement A) :=
  match cs with
  | [] => ([], [])
  | (creditor, credit) :: rest =>
      if fle debt fcent then (cs, [])
      else
        let transfer := py_min debt credit in
        if flt fcent transfer then
          let '(rest', records) :=
            scan_transfers_above_cent debtor (fsub debt transfer) rest in
          ((creditor, fsub credit transfer) :: rest',
           record debtor creditor transfer :: records)
        else
          let '(rest', records) := scan_transfers_above_cent debtor debt rest in
          ((creditor, credit) :: rest', records)
  end.

(** The debtors left to right; each scan works on the creditor list the
    scans before it left. *)
Fixpoint greedy (scan : string -> A -> list (string * A) ->
                        list (string * A) * list (Settlement A))
    (debtors creditors : list (string * A)) : list (Settlement A) :=
  match debtors with
  | [] => []
  | (debtor, debt) :: debtors' =>
      let '(creditors', records) := scan debtor debt creditors in
      records ++ greedy scan debtors' creditors'
  end.

Definition settle_to_the_letter (roster : list string) (bal : string -> A)
  : list (Settlement A) :=
  greedy scan_always_transfers (roster_debtors roster bal) (roster_creditors roster bal).

Definition settle_greedy (roster : list string) (bal : string -> A)
  : list (Settlement A) :=
  greedy scan_transfers_above_cent (roster_debtors roster bal)
    (roster_creditors roster bal).

End Greedy.

(** Five travellers; after Bob has paid Alice, Alice is still owed less
    than 0.01. *)
Definition crumbs_trip : TripData float :=
  mk_trip ["Alice"; "Bob"; "Carol"; "Dave"; "Erin"]
    [mk_expense 1 1 ["Alice"] ["Bob"];
     mk_expense 2 0.008 ["Alice"] ["Erin"];
     mk_expense 3 0.5 ["Dave"] ["Carol"];
     mk_expense 4 0.5 ["Dave"] ["Erin"]].


(** ** Applying the settlements *)

Section Adjusted.
Context {A : Type} `{Amount A}.

(** One settlement applied to the balance [b] of [p]: the balance of the
    one who pays goes up by the amount, the balance of the one who is
    paid goes down by it. *)
Definition apply_settlement (p : string) (b : A) (s : Settlement A) : A :=
  let b1 := if bool_decide (s_from s = p) then fadd b (s_amount s) else b in
  if bool_decide (s_to s = p) then fsub b1 (s_amount s) else b1.

Definition adjusted_balance (p : string) (b : A) (ss : list (Settlement A)) : A :=
  fold_left (apply_settlement p) ss b.

(** The number of settlements [p] takes part in. *)
Definition involved (p : string) (ss : list (Settlement A)) : nat :=
  length (filter (fun s => s_from s = p ∨ s_to s = p) ss).

(** Every participant ends within 0.01 of zero. *)
Definition all_settled (balances : dict A) (ss : list (Settlement A)) : bool :=
  forallb (fun '(p, b) => within_cent (adjusted_balance p b ss)) balances.

End Adjusted.

(** One payer, three sharers of 0.008 each. *)
Definition thin_shares_trip : TripData float :=
  mk_trip ["Alice"; "Bob"; "Carol"; "Dave"]
    [mk_expense 1 0.024 ["Alice"] ["Bob"; "Carol"; "Dave"]].

(** Alice owes 0.015 to each of three. *)
Definition three_debts_trip {A : Type} (num : Q -> A) : TripData A :=
  let expense id pb :=
    {| expense_id := id; description := "item"; amount := num (15 # 1000)%Q;
       paid_by := pb; split_among := ["Alice"]; category := "General";
       date := "2024-01-01 12:00" |} in
  mk_trip ["Alice"; "Bob"; "Carol"; "Dave"]
    [expense 1%Z ["Bob"]; expense 2%Z ["Carol"]; expense 3%Z ["Dave"]].

Definition float_of_Q (q : Q) : float :=
  PrimFloat.div (float_of_Z (Qnum q)) (float_of_Z (Z.pos (Qden q))).

(** ** Exact arithmetic: what was paid and received *)

Definition paid (p : string) (ss : list (Settlement Q)) : Q :=
  fold_right (fun s acc => if bool_decide (s_from s = p) then s_amount s + acc else acc)%Q
    0%Q ss.

Definition received (p : string) (ss : list (Settlement Q)) : Q :=
  fold_right (fun s acc => if bool_decide (s_to s = p) then s_amount s + acc else acc)%Q
    0%Q ss.

Definition count_from (p : string) (ss : list (Settlement Q)) : nat :=
  length (filter (fun s => s_from s = p) ss).

Definition count_to (p : string) (ss : list (Settlement Q)) : nat :=
  length (filter (fun s => s_to s = p) ss).

(** Half a cent for each of [n] rounded records. *)
Definition slack (n : nat) : Q := ((1 # 200) * inject_Z (Z.of_nat n))%Q.

(** [x] lies within [eps] of zero. *)
Definition within (eps x : Q) : Prop := (- eps <= x /\ x <= eps)%Q.


(** What the settlements achieve on a mapping of exact balances:
    whoever is within the threshold takes part in no settlement and keeps
    the balance; and either all debtors or all creditors end within 0.01
    of zero, up to half a cent for each rounded settlement they take part
    in. *)
Definition one_side_settled (balances : dict Q) (ss : list (Settlement Q)) : Prop :=
  (∀ p v, dict_get p balances = Some v ->
          (- (1 # 100) <= v ∧ v <= 1 # 100)%Q ->
          involved p ss = 0%nat ∧ (adjusted_balance p v ss == v)%Q) ∧
  ((∀ p v, dict_get p balances = Some v -> (v < - (1 # 100))%Q ->
           within ((1 # 100) + slack (involved p ss)) (adjusted_balance p v ss)) ∨
   (∀ p v, dict_get p balances = Some v -> (1 # 100 < v)%Q ->
           within ((1 # 100) + slack (involved p ss)) (adjusted_balance p v ss))).

(** ** [get_summary] *)

Section Summary.
Context {A : Type} `{Amount A}.

Record Summary : Type := {
  total_expenses : A;
  cost_per_person : A;
  num_expenses : nat;
  category_totals : dict A
}.

(** [category_totals[category] = category_totals.get(category, 0) + expense['amount']] *)
Definition add_to_category (totals : dict A) (e : Expense A) : dict A :=
  dict_set (category e)
    (fadd (default fzero (dict_get (category e) totals)) (amount e)) totals.

(** [sum(...)] adds the amounts to 0 from left to right; the conditional
    expression divides only when the roster is not empty. The 0 of an
    empty sum and of an empty roster is the integer, which the amounts
    here do not tell from 0.0. *)
Definition get_summary (st : TripData A) : Result Summary :=
  let total := fsum (amount <$> expenses st) in
  cost ← match participants st with
         | [] => Ok fzero
         | _ => py_div total (length (participants st))
         end;
  Ok {| total_expenses := total;
        cost_per_person := cost;
        num_expenses := length (expenses st);
        category_totals := fold_left add_to_category (expenses st) [] |}.

(** The total of one category: its amounts added to 0 in the order of the
    expenses. *)
Definition category_sum (c : string) (es : list (Expense A)) : A :=
  fsum (amount <$> filter (fun e => category e = c) es).

End Summary.

Arguments Summary A : clear implicits.

(** ** The screens *)

Section Screens.
Context {A : Type} `{Amount A}.
Variable float_of_string : string -> option A.

(** [show_popup(title, message)] *)
Inductive Popup : Type := ShowPopup (title message : string).

(** The fields of [AddExpenseScreen] that [save_expense] reads and
    writes; of each button only [selected] is kept. *)
Record ExpenseForm : Type := {
  description_input : string;
  amount_input : string;
  category_spinner : string;
  paid_by_checkboxes : dict bool;
  split_among_checkboxes : dict bool
}.

(** [AddExpenseScreen.refresh_participants]: both dictionaries are
    cleared and get one unselected button for every participant. *)
Definition AddExpenseScreen_refresh_participants (st : TripData A)
    (f : ExpenseForm) : ExpenseForm :=
  {| description_input := description_input f;
     amount_input := amount_input f;
     category_spinner := category_spinner f;
     paid_by_checkboxes := dict_from_keys (participants st) false;
     split_among_checkboxes := dict_from_keys (participants st) false |}.

(** [[p for p, btn in boxes.items() if btn.selected]] *)
Definition selected_names (boxes : dict bool) : list string :=
  omap (fun '(p, sel) => if sel : bool then Some p else None) boxes.

(** [for btn in boxes.values(): btn.selected = False] *)
Definition uncheck_all (boxes : dict bool) : dict bool :=
  (fun '(p, _) => (p, false)) <$> boxes.

(** [AddExpenseScreen.save_expense]: the popup it shows, the form and the
    ledger it leaves. *)
Definition save_expense (now : string) (f : ExpenseForm) (st : TripData A)
  : Result (Popup * ExpenseForm * TripData A) :=
  let description := strip (description_input f) in
  let amount := strip (amount_input f) in
  if String.eqb description "" || String.eqb amount "" then
    Ok (ShowPopup "Error" "Please fill in description and amount", f, st)
  else
    match float_of_string amount with
    | None => Ok (ShowPopup "Error" "Please enter a valid amount", f, st)
    | Some x =>
        let paid_by := selected_names (paid_by_checkboxes f) in
        let split_among := selected_names (split_among_checkboxes f) in
        match paid_by, split_among with
        | [], _ =>
            Ok (ShowPopup "Error" "Please select who paid for this expense", f, st)
        | _, [] =>
            Ok (ShowPopup "Error" "Please select who to split this expense among",
                f, st)
        | _, _ =>
            '(_, st') ← add_expense float_of_string description (PyNum x)
                          paid_by split_among (category_spinner f) now st;
            Ok (ShowPopup "Success" "Expense added successfully!",
                {| description_input := "";
                   amount_input := "";
                   category_spinner := "General";
                   paid_by_checkboxes := uncheck_all (paid_by_checkboxes f);
                   split_among_checkboxes := uncheck_all (split_among_checkboxes f) |},
                st')
        end
    end.

End Screens.


(** ** Invariants of the ledger *)

(** The roster has no repetition and no empty name. *)
Definition roster_clean {A : Type} (st : TripData A) : Prop :=
  NoDup (participants st) ∧ "" ∉ participants st.

(** Every expense names participants only. *)
Definition names_in_roster {A : Type} (st : TripData A) : Prop :=
  Forall (fun e => paid_by e ⊆ participants st ∧ split_among e ⊆ participants st)
    (expenses st).

#[global] Instance roster_clean_dec {A : Type} (st : TripData A) :
  Decision (roster_clean st).
Proof. unfold roster_clean. apply _. Defined.

#[global] Instance names_in_roster_dec {A : Type} (st : TripData A) :
  Decision (names_in_roster st).
Proof. unfold names_in_roster. apply _. Defined.

(** The amounts of the expenses that have no payer left. *)
Definition unpaid_total {A : Type} `{Amount A} (es : list (Expense A)) : A :=
  fsum (amount <$> filter (fun e => paid_by e = []) es).

(** Bob shares a taxi whose payer has been removed (exact amounts). *)
Definition payerless_trip : TripData Q :=
  mk_trip ["Bob"]
    [{| expense_id := 1; description := "taxi"; amount := 100%Q;
        paid_by := []; split_among := ["Bob"]; category := "General";
        date := "2024-01-01 12:00" |}].

(** The three uneven expenses, newest first. *)
Definition uneven_trip_reversed : TripData Q :=
  mk_trip (participants (uneven_trip inject_Z))
    (reverse (expenses (uneven_trip inject_Z))).

(** Three expenses in two categories. *)
Definition categories_trip {A : Type} (num : Z -> A) : TripData A :=
  let expense id a c :=
    {| expense_id := id; description := "item"; amount := num a;
       paid_by := ["Alice"]; split_among := ["Alice"; "Bob"]; category := c;
       date := "2024-01-01 12:00" |} in
  mk_trip ["Alice"; "Bob"]
    [expense 1%Z 30%Z "Food"; expense 2%Z 50%Z "Transportation";
     expense 3%Z 12%Z "Food"].

(** The entry of category [c], followed through the loop of
    [get_summary]. *)
Definition category_step {A : Type} `{Amount A} (c : string) (o : option A)
    (e : Expense A) : option A :=
  if decide (category e = c) then Some (fadd (default fzero o) (amount e)) else o.

(** ** The shape of a settlement list *)

Definition settlement_pair {A : Type} (s : Settlement A) : string * string :=
  (s_from s, s_to s).

(** Every debtor against every creditor: the pairs in the order the two
    loops of [get_settlements] visit them. *)
Definition all_pairs (debtors creditors : list string) : list (string * string) :=
  debtors ≫= (fun d => (fun c => (d, c)) <$> creditors).

(** The balances of Scenario A, and balances that are all within the
    threshold. *)
Definition scenario_A_balances : dict float :=
  [("Alice", 50%float); ("Bob", (-50)%float)].

Definition settled_balances : dict float :=
  [("Alice", 0.004%float); ("Bob", (-0.004)%float); ("Carol", 0%float)].

(** Alice owes 0.015 to each of three (exact balances). *)
Definition three_debts_balances : dict Q :=
  [("Alice", - (45 # 1000)); ("Bob", 15 # 1000); ("Carol", 15 # 1000);
   ("Dave", 15 # 1000)]%Q.

(** ** Calls of the ledger in sequence *)

Section Calls.
Context {A : Type} `{Amount A}.
Variable float_of_string : string -> option A.

(** The four operations that change a [TripData]. *)
Inductive LedgerCall : Type :=
| AddParticipant (name : string)
| RemoveParticipant (name : string)
| AddExpense (description : string) (amount : PyArg A)
    (paid_by split_among : list string) (category now : string)
| RemoveExpense (id : Z).

Definition run_call (st : TripData A) (c : LedgerCall) : Result (TripData A) :=
  match c with
  | AddParticipant name => Ok (add_participant name st).2
  | RemoveParticipant name => '(_, st') ← remove_participant name st; Ok st'
  | AddExpense d a pb sa cat now =>
      '(_, st') ← add_expense float_of_string d a pb sa cat now st; Ok st'
  | RemoveExpense id => Ok (remove_expense id st)
  end.

Definition run_calls (cs : list LedgerCall) (st : TripData A) : Result (TripData A) :=
  for_each run_call cs st.

(** A call that hands [add_expense] sets of participants, as the form of
    the expense screen does. *)
Definition call_admissible (st : TripData A) (c : LedgerCall) : Prop :=
  match c with
  | AddExpense _ _ pb sa _ _ =>
      NoDup pb ∧ NoDup sa ∧ pb ⊆ participants st ∧ sa ⊆ participants st
  | _ => True
  end.

End Calls.

Arguments LedgerCall A : clear implicits.

(** The boxes of the form are those of the roster, whatever their ticks:
    the state [AddExpenseScreen.refresh_participants] leaves and the
    toggles keep. *)
Definition form_matches {A : Type} (st : TripData A) (f : ExpenseForm) : Prop :=
  dict_keys (paid_by_checkboxes f) = dict_keys (dict_from_keys (participants st) false) ∧
  dict_keys (split_among_checkboxes f)
    = dict_keys (dict_from_keys (participants st) false).

(** No white space at either end. *)
Definition trimmed (s : string) : Prop := lstrip s = s ∧ rstrip s = s.

(** A form on Scenario A: lunch of 30, paid by Bob, for both. *)
Definition lunch_form : ExpenseForm :=
  {| description_input := " lunch "; amount_input := "30";
     category_spinner := "Food";
     paid_by_checkboxes := [("Alice", false); ("Bob", true)];
     split_among_checkboxes := [("Alice", true); ("Bob", true)] |}.

(** A parser that knows the one amount of the samples. *)
Definition thirty_parser (s : string) : option float :=
  if String.eqb s "30" then Some 30%float else None.

(** Alice twice, the empty name, Bob, an expense, and Alice leaves. *)
Definition sample_calls : list (LedgerCall float) :=
  [AddParticipant "Alice"; AddParticipant "Alice"; AddParticipant "";
   AddParticipant "Bob";
   AddExpense "taxi" (PyNum 100%float) ["Alice"] ["Alice"; "Bob"] "General"
     "2024-01-01 12:00";
   RemoveParticipant "Alice"].

(** The form as [save_expense] leaves it after a success. *)
Definition cleared_form (f : ExpenseForm) : ExpenseForm :=
  {| description_input := ""; amount_input := "";
     category_spinner := "General";
     paid_by_checkboxes := uncheck_all (paid_by_checkboxes f);
     split_among_checkboxes := uncheck_all (split_among_checkboxes f) |}.

(** What the form asks [add_expense] to append. *)
Definition form_expense {A : Type} (x : A) (now : string) (f : ExpenseForm)
    (st : TripData A) : Expense A :=
  new_expense (strip (description_input f)) x
    (selected_names (paid_by_checkboxes f))
    (selected_names (split_among_checkboxes f))
    (category_spinner f) now st.

(** Scenario A after the lunch of [lunch_form] has been saved. *)
Definition lunch_ledger : TripData float :=
  {| trip_name := trip_name scenario_A;
     participants := participants scenario_A;
     expenses := expenses scenario_A
                 ++ [form_expense 30%float "2024-01-01 12:30" lunch_form scenario_A] |}.

(** * Properties *)

(** ** Lists of names and the error monad *)

Lemma bind_Ok {T U : Type} (m : Result T) (f : T -> Result U) (u : U) :
  m ≫= f = Ok u ↔ ∃ t, m = Ok t ∧ f t = Ok u.
Proof.
  destruct m as [t|e]; simpl; split.
  - intros Hf. by exists t.
  - by intros (t' & [= <-] & Hf).
  - discriminate.
  - by intros (t' & ? & _).
Qed.

Lemma for_each_app {S X : Type} (body : S -> X -> Result S) (xs ys : list X) (s : S) :
  for_each body (xs ++ ys) s = for_each body xs s ≫= for_each body ys.
Proof.
  revert s. induction xs as [|x xs IH]; intros s; simpl; [done|].
  destruct (body s x) as [s'|e]; simpl; [apply IH | done].
Qed.

Lemma filter_keeps_all {X : Type} (P : X -> Prop) `{!∀ x, Decision (P x)}
    (l : list X) :
  (∀ x, x ∈ l -> P x) -> filter P l = l.
Proof.
  induction l as [|x l IH]; intros Hall; [done|].
  rewrite filter_cons_True by (apply Hall; left).
  f_equal. apply IH. intros y Hy. apply Hall. by right.
Qed.

Lemma py_list_remove_NoDup (x : string) (l : list string) :
  NoDup l -> x ∈ l -> py_list_remove x l = Ok (filter (fun y => y ≠ x) l).
Proof.
  induction 1 as [|y l Hy Hl IH]; intros Hx.
  - by apply elem_of_nil in Hx.
  - simpl. destruct (decide (x = y)) as [->|Hne].
    + rewrite filter_cons_False by (intros Hc; by apply Hc).
      f_equal. symmetry. apply filter_keeps_all. by intros z Hz ->.
    + apply elem_of_cons in Hx as [?|Hx]; [done|].
      rewrite (IH Hx). simpl. by rewrite filter_cons_True by congruence.
Qed.

Lemma discard_NoDup (x : string) (l : list string) :
  NoDup l -> discard x l = Ok (filter (fun y => y ≠ x) l).
Proof.
  intros Hl. unfold discard. case_bool_decide as Hx.
  - by apply py_list_remove_NoDup.
  - f_equal. symmetry. apply filter_keeps_all. by intros z Hz ->.
Qed.

(** ** Participants *)

Section Participants.
Context {A : Type}.
Implicit Types (st : TripData A) (name : string).

Lemma add_participant_accepts name st :
  name ≠ "" -> name ∉ participants st ->
  add_participant name st =
    (true, {| trip_name := trip_name st;
              participants := participants st ++ [name];
              expenses := expenses st |}).
Proof.
  intros Hne Hnew. unfold add_participant.
  destruct (String.eqb_spec name "") as [?|_]; [done|].
  by rewrite bool_decide_eq_false_2.
Qed.

Lemma add_participant_rejects name st :
  name = "" ∨ name ∈ participants st -> add_participant name st = (false, st).
Proof.
  intros Hbad. unfold add_participant.
  destruct (String.eqb_spec name "") as [?|Hne]; [done|].
  destruct Hbad as [?|Hin]; [done|].
  by rewrite bool_decide_eq_true_2.
Qed.


Lemma drop_from_expense_sets name (e : Expense A) :
  NoDup (paid_by e) -> NoDup (split_among e) ->
  ∃ e', drop_from_expense name e = Ok e' ∧ without_name name e e'.
Proof.
  intros Hp Hs. unfold drop_from_expense.
  rewrite (discard_NoDup _ _ Hp), (discard_NoDup _ _ Hs). simpl.
  eexists. split; [done|]. by repeat split.
Qed.

Lemma drop_from_expenses_sets name (es : list (Expense A)) :
  Forall (fun e => NoDup (paid_by e) ∧ NoDup (split_among e)) es ->
  ∃ es', drop_from_expenses name es = Ok es' ∧ Forall2 (without_name name) es es'.
Proof.
  induction 1 as [|e es [Hp Hs] _ (es' & Hes & Hall)]; simpl.
  - exists []. by split.
  - destruct (drop_from_expense_sets name e Hp Hs) as (e' & -> & He').
    simpl. rewrite Hes. simpl. exists (e' :: es'). split; [done|].
    by constructor.
Qed.

Lemma py_list_remove_present (x : string) (l : list string) :
  x ∈ l -> ∃ l', py_list_remove x l = Ok l' ∧ length l = S (length l').
Proof.
  induction l as [|y l IH]; intros Hx; [by apply elem_of_nil in Hx|]. simpl.
  destruct (decide (x = y)) as [->|Hne]; [by eexists|].
  apply elem_of_cons in Hx as [?|Hx]; [done|].
  destruct (IH Hx) as (l' & -> & Hlen). simpl. eexists. split; [done|].
  simpl. by rewrite Hlen.
Qed.

Lemma discard_total (x : string) (l : list string) : ∃ l', discard x l = Ok l'.
Proof.
  unfold discard. case_bool_decide as Hx; [|by eexists].
  destruct (py_list_remove_present x l Hx) as (l' & -> & _). by eexists.
Qed.

(** The guards [if name in ...] make every [remove] find its element:
    [remove_participant] raises on no state. *)
Lemma remove_participant_total name st :
  ∃ r, remove_participant name st = Ok r.
Proof.
  unfold remove_participant. case_bool_decide as Hin; [|by eexists].
  destruct (py_list_remove_present name _ Hin) as (ps & -> & _). simpl.
  assert (Hes : ∃ es, drop_from_expenses name (expenses st) = Ok es).
  { induction (expenses st) as [|e es [es' IH]]; simpl; [by eexists|].
    unfold drop_from_expense.
    destruct (discard_total name (paid_by e)) as (pb & ->).
    destruct (discard_total name (split_among e)) as (sa & ->). simpl.
    rewrite IH. simpl. by eexists. }
  destruct Hes as (es & ->). simpl. by eexists.
Qed.

(** C8: on a state whose name lists are sets, [remove_participant]
    returns true exactly when [name] is in the roster; then [name] is
    struck from the roster and from the payers and sharers of every
    expense, the expenses stay as many, in the same order, with their
    identifier, description, amount, category and date; when [name] is
    not in the roster it returns false and the state is unchanged. It
    never raises. *)
Theorem remove_participant_spec name st :
  names_are_sets st ->
  if decide (name ∈ participants st) then
    ∃ st', remove_participant name st = Ok (true, st') ∧
           trip_name st' = trip_name st ∧
           participants st' = filter (fun x => x ≠ name) (participants st) ∧
           (name ∉ participants st') ∧
           length (expenses st') = length (expenses st) ∧
           Forall2 (without_name name) (expenses st) (expenses st')
  else remove_participant name st = Ok (false, st).
Proof.
  intros [Hroster Hexp]. unfold remove_participant.
  destruct (decide _) as [Hin|Hout].
  - rewrite bool_decide_eq_true_2 by done.
    rewrite (py_list_remove_NoDup _ _ Hroster Hin). simpl.
    destruct (drop_from_expenses_sets name _ Hexp) as (es' & -> & Hall).
    simpl. eexists. split; [done|]. simpl. repeat split; try done.
    + rewrite list_elem_of_filter. by intros [? _].
    + symmetry. by eapply Forall2_length.
  - by rewrite bool_decide_eq_false_2.
Qed.

End Participants.


(** Scenario A is such a state: removing Bob leaves Alice alone in the roster
    and in the expense. *)
Lemma remove_participant_spec_witness :
  names_are_sets scenario_A ∧
  ∃ st', remove_participant "Bob" scenario_A = Ok (true, st') ∧
         participants st' = ["Alice"] ∧
         (split_among <$> expenses st') = [["Alice"]].
Proof.
  assert (Hwf : names_are_sets scenario_A) by compute_done.
  split; [exact Hwf|].
  pose proof (remove_participant_spec "Bob" scenario_A Hwf) as Hspec.
  destruct (decide _) as [_|Hno]; [|exfalso; apply Hno; compute_done].
  destruct Hspec as (st' & Hrun & _ & Hps & _ & _ & Hes).
  exists st'. split; [exact Hrun|].
  vm_compute in Hrun. injection Hrun as <-. by split.
Defined.

(** ** Expenses *)

Section Expenses.
Context {A : Type}.
Variable float_of_string : string -> option A.
Implicit Types (st : TripData A) (e : Expense A) (id : Z).


Lemma remove_expense_absent id st :
  id ∉ expense_id <$> expenses st -> remove_expense id st = st.
Proof.
  intros Hid. destruct st as [tn ps es]. unfold remove_expense. simpl in *.
  f_equal. apply filter_keeps_all. intros e He Heq.
  apply Hid. rewrite <- Heq. by apply list_elem_of_fmap_2.
Qed.

Lemma remove_expense_unique id (es : list (Expense A)) :
  NoDup (expense_id <$> es) -> id ∈ expense_id <$> es ->
  ∃ l1 e l2, es = l1 ++ e :: l2 ∧ expense_id e = id ∧
             filter (fun e => expense_id e ≠ id) es = l1 ++ l2.
Proof.
  induction es as [|e es IH]; simpl; intros Hnd Hin.
  - by apply elem_of_nil in Hin.
  - apply NoDup_cons in Hnd as [Hfresh Hnd].
    destruct (decide (expense_id e = id)) as [Heq|Hne].
    + exists [], e, es. split; [done|]. split; [done|].
      rewrite filter_cons_False by (intros Hc; by apply Hc).
      simpl. apply filter_keeps_all. intros e' He' Heq'.
      apply Hfresh. rewrite Heq, <- Heq'. by apply list_elem_of_fmap_2.
    + apply elem_of_cons in Hin as [?|Hin]; [congruence|].
      destruct (IH Hnd Hin) as (l1 & e' & l2 & -> & He' & Hf).
      exists (e :: l1), e', l2. split; [done|]. split; [done|].
      rewrite filter_cons_True by done. simpl. by rewrite Hf.
Qed.


End Expenses.



(** ** Dictionaries *)

Section Dict.
Context {V : Type}.
Implicit Types (d : dict V) (k : string) (v : V).

Lemma dict_get_None k d : dict_get k d = None ↔ k ∉ dict_keys d.
Proof.
  unfold dict_keys. induction d as [|[k' v'] d IH]; simpl.
  - split; [intros _; apply not_elem_of_nil | done].
  - rewrite not_elem_of_cons. destruct (decide (k = k')) as [->|Hne].
    + split; [done | by intros [? _]].
    + rewrite IH. tauto.
Qed.

Lemma dict_get_is_Some k d : is_Some (dict_get k d) ↔ k ∈ dict_keys d.
Proof.
  rewrite <- not_eq_None_Some, dict_get_None.
  destruct (decide (k ∈ dict_keys d)); tauto.
Qed.

Lemma dict_get_set k k' v d :
  dict_get k' (dict_set k v d) = if decide (k' = k) then Some v else dict_get k' d.
Proof.
  induction d as [|[k0 v0] d IH]; simpl.
  - destruct (decide (k' = k)); done.
  - destruct (decide (k = k0)) as [<-|Hne]; simpl.
    + destruct (decide (k' = k)); done.
    + rewrite IH. destruct (decide (k' = k0)) as [->|?]; [|done].
      by rewrite decide_False by done.
Qed.

Lemma dict_keys_set_present k v d :
  k ∈ dict_keys d -> dict_keys (dict_set k v d) = dict_keys d.
Proof.
  unfold dict_keys. induction d as [|[k0 v0] d IH]; simpl; intros Hk.
  - by apply elem_of_nil in Hk.
  - destruct (decide (k = k0)) as [->|Hne]; [done|]. simpl. f_equal.
    apply IH. by apply elem_of_cons in Hk as [?|?].
Qed.

Lemma dict_keys_set_new k v d :
  k ∉ dict_keys d -> dict_keys (dict_set k v d) = dict_keys d ++ [k].
Proof.
  unfold dict_keys. induction d as [|[k0 v0] d IH]; simpl; intros Hk; [done|].
  apply not_elem_of_cons in Hk as [Hne Hk].
  rewrite decide_False by done. simpl. f_equal. by apply IH.
Qed.

Lemma dict_modify_Ok k (f : V -> V) d :
  k ∈ dict_keys d ->
  ∃ v, dict_get k d = Some v ∧ dict_modify k f d = Ok (dict_set k (f v) d).
Proof.
  intros Hk. apply dict_get_is_Some in Hk as [v Hv].
  exists v. unfold dict_modify. by rewrite Hv.
Qed.

Lemma dict_modify_missing k (f : V -> V) d :
  k ∉ dict_keys d -> dict_modify k f d = Raise (KeyError k).
Proof. intros Hk. apply dict_get_None in Hk. unfold dict_modify. by rewrite Hk. Qed.

(** The dictionary comprehension over a duplicate-free list of keys. *)
Lemma dict_fill_fresh (ks : list string) v d :
  NoDup ks -> (∀ k, k ∈ ks -> k ∉ dict_keys d) ->
  fold_left (fun d k => dict_set k v d) ks d = d ++ ((fun k => (k, v)) <$> ks).
Proof.
  intros Hnd. revert d. induction Hnd as [|k ks Hk Hnd IH]; intros d Hfresh; simpl.
  - by rewrite app_nil_r.
  - assert (Hset : dict_set k v d = d ++ [(k, v)]).
    { assert (Hkd : k ∉ dict_keys d) by (apply Hfresh; left).
      clear -Hkd. unfold dict_keys in Hkd.
      induction d as [|[k0 v0] d IHd]; simpl; [done|].
      simpl in Hkd. apply not_elem_of_cons in Hkd as [Hne Hkd].
      rewrite decide_False by done. f_equal. by apply IHd. }
    rewrite Hset, IH.
    + by rewrite <- app_assoc.
    + intros k' Hk'. unfold dict_keys. rewrite fmap_app. simpl.
      rewrite elem_of_app, list_elem_of_singleton.
      intros [Hin| ->]; [|done]. revert Hin. apply Hfresh. by right.
Qed.

Lemma dict_from_keys_NoDup (ks : list string) v :
  NoDup ks -> dict_from_keys ks v = (fun k => (k, v)) <$> ks.
Proof.
  intros Hnd. unfold dict_from_keys. rewrite dict_fill_fresh; [done..|].
  intros k _. apply not_elem_of_nil.
Qed.

(** In general the keys are the listed ones, whatever their repetitions. *)
Lemma dict_fill_keys (ks : list string) v d k :
  k ∈ dict_keys (fold_left (fun d k => dict_set k v d) ks d) ↔ k ∈ dict_keys d ∨ k ∈ ks.
Proof.
  revert d. induction ks as [|k0 ks IH]; intros d; simpl.
  - rewrite elem_of_nil. tauto.
  - rewrite IH, elem_of_cons. 
    destruct (decide (k0 ∈ dict_keys d)) as [Hin|Hout].
    + rewrite dict_keys_set_present by done.
      split; [tauto|]. intros [?|[->|?]]; tauto.
    + rewrite dict_keys_set_new by done. rewrite elem_of_app, list_elem_of_singleton.
      tauto.
Qed.

Lemma dict_fill_get (ks : list string) v d k :
  dict_get k (fold_left (fun d k => dict_set k v d) ks d) =
    if decide (k ∈ ks) then Some v else dict_get k d.
Proof.
  revert d. induction ks as [|k0 ks IH]; intros d; cbn [fold_left].
  - rewrite decide_False; [done|]. apply not_elem_of_nil.
  - rewrite IH, dict_get_set.
    destruct (decide (k ∈ ks)) as [Hin|Hout].
    + rewrite decide_True; [done|]. by right.
    + destruct (decide (k = k0)) as [->|Hne].
      * rewrite decide_True; [done|]. left.
      * rewrite decide_False; [done|]. rewrite not_elem_of_cons. tauto.
Qed.

Lemma dict_from_keys_keys (ks : list string) v k :
  k ∈ dict_keys (dict_from_keys ks v) ↔ k ∈ ks.
Proof.
  unfold dict_from_keys. rewrite dict_fill_keys. unfold dict_keys. simpl.
  rewrite elem_of_nil. tauto.
Qed.

(** A loop that updates the entries of the listed keys one after the
    other: [for k in names: d[k] = f(d[k])]. *)
Lemma modify_each_Ok (f : V -> V) (names : list string) d :
  (∀ n, n ∈ names -> n ∈ dict_keys d) ->
  ∃ d', for_each (fun d k => dict_modify k f d) names d = Ok d' ∧
        dict_keys d' = dict_keys d.
Proof.
  revert d. induction names as [|n names IH]; intros d Hin; simpl.
  - by exists d.
  - destruct (dict_modify_Ok n f d) as (v & Hv & ->); [apply Hin; left|].
    simpl. assert (Hkeys : dict_keys (dict_set n (f v) d) = dict_keys d).
    { apply dict_keys_set_present. apply Hin. left. }
    destruct (IH (dict_set n (f v) d)) as (d' & Hrun & Hd').
    + intros m Hm. rewrite Hkeys. apply Hin. by right.
    + exists d'. split; [done|]. by rewrite Hd'.
Qed.

Lemma modify_each_get (f : V -> V) (names : list string) d d' p :
  NoDup names ->
  for_each (fun d k => dict_modify k f d) names d = Ok d' ->
  dict_get p d' = (if bool_decide (p ∈ names) then f else id) <$> dict_get p d.
Proof.
  intros Hnd. revert d. induction Hnd as [|n names Hn Hnd IH]; intros d; simpl.
  - intros [= <-]. by destruct (dict_get p d).
  - destruct (dict_get n d) as [v|] eqn:Hv; cycle 1.
    { rewrite dict_modify_missing by (by apply dict_get_None). by simpl. }
    replace (dict_modify n f d) with (Ok (dict_set n (f v) d))
      by (unfold dict_modify; by rewrite Hv).
    simpl. intros Hrun. rewrite (IH _ Hrun), dict_get_set.
    destruct (decide (p = n)) as [->|Hne].
    + rewrite bool_decide_eq_false_2 by done.
      rewrite bool_decide_eq_true_2 by left. by rewrite Hv.
    + destruct (decide (p ∈ names)) as [Hp|Hp].
      * rewrite !bool_decide_eq_true_2; [done| by right |done].
      * rewrite !bool_decide_eq_false_2; [done| |done].
        rewrite not_elem_of_cons. tauto.
Qed.

Lemma modify_each_missing (f : V -> V) (l1 l2 : list string) n d :
  (∀ x, x ∈ l1 -> x ∈ dict_keys d) -> n ∉ dict_keys d ->
  for_each (fun d k => dict_modify k f d) (l1 ++ n :: l2) d = Raise (KeyError n).
Proof.
  intros Hl1 Hn. rewrite for_each_app.
  destruct (modify_each_Ok f l1 d Hl1) as (d' & -> & Hkeys). simpl.
  rewrite dict_modify_missing; [done|]. by rewrite Hkeys.
Qed.

Lemma dict_modify_keys k (f : V -> V) d d' :
  dict_modify k f d = Ok d' -> dict_keys d' = dict_keys d.
Proof.
  unfold dict_modify. destruct (dict_get k d) as [v|] eqn:Hv; [|done].
  intros [= <-]. apply dict_keys_set_present. apply dict_get_is_Some. by exists v.
Qed.

Lemma for_each_keys {X : Type} (body : dict V -> X -> Result (dict V))
    (xs : list X) d d' :
  (∀ d x d', body d x = Ok d' -> dict_keys d' = dict_keys d) ->
  for_each body xs d = Ok d' -> dict_keys d' = dict_keys d.
Proof.
  intros Hbody. revert d. induction xs as [|x xs IH]; intros d; simpl.
  - by intros [= <-].
  - intros (d1 & Hd1 & Hd')%bind_Ok. rewrite (IH _ Hd'). by eapply Hbody.
Qed.

Lemma dict_set_NoDup k v d :
  NoDup (dict_keys d) -> NoDup (dict_keys (dict_set k v d)).
Proof.
  intros Hnd. destruct (decide (k ∈ dict_keys d)) as [Hin|Hout].
  - by rewrite dict_keys_set_present.
  - rewrite dict_keys_set_new by done. apply NoDup_app. split; [done|].
    split; [|apply NoDup_singleton].
    intros x Hx ->%list_elem_of_singleton. done.
Qed.

Lemma dict_from_keys_NoDup_keys (ks : list string) v :
  NoDup (dict_keys (dict_from_keys ks v)).
Proof.
  unfold dict_from_keys.
  assert (Hgen : ∀ d, NoDup (dict_keys d) ->
            NoDup (dict_keys (fold_left (fun d k => dict_set k v d) ks d))).
  { induction ks as [|k ks IH]; intros d Hd; simpl; [done|].
    apply IH. by apply dict_set_NoDup. }
  apply Hgen. constructor.
Qed.

End Dict.

(** ** Balances *)

Lemma for_each_ext {S X : Type} (f g : S -> X -> Result S) (xs : list X) (s : S) :
  (∀ s x, x ∈ xs -> f s x = g s x) -> for_each f xs s = for_each g xs s.
Proof.
  revert s. induction xs as [|x xs IH]; intros s Hfg; simpl; [done|].
  rewrite Hfg by left. destruct (g s x) as [s'|e]; simpl; [|done].
  apply IH. intros s0 y Hy. apply Hfg. by right.
Qed.

Section Balances.
Context {A : Type} `{Amount A}.
Implicit Types (e : Expense A) (es : list (Expense A)) (d : dict A)
  (st : TripData A) (p : string).

Lemma py_div_nonempty {X : Type} (x : A) (l : list X) :
  l ≠ [] -> py_div x (length l) = Ok (fdiv_len x (length l)).
Proof. by destruct l. Qed.

(** The loop over the payers is a loop of [+=] with one share. *)
Lemma credit_loop_modify e d :
  for_each (credit_payer e) (paid_by e) d =
  for_each (fun d k => dict_modify k (fun b => fadd b (payer_share e)) d) (paid_by e) d.
Proof.
  apply for_each_ext. intros d0 payer Hin. unfold credit_payer, dict_modify.
  destruct (dict_get payer d0); [|done].
  rewrite py_div_nonempty; [done|]. intros Hnil. rewrite Hnil in Hin.
  by apply elem_of_nil in Hin.
Qed.

Lemma account_expense_unfold e d :
  split_among e ≠ [] ->
  account_expense d e =
    for_each (fun d k => dict_modify k (fun b => fadd b (payer_share e)) d) (paid_by e) d
    ≫= for_each (fun d k => dict_modify k (fun b => fsub b (sharer_share e)) d)
         (split_among e).
Proof.
  intros Hsa. unfold account_expense. rewrite py_div_nonempty by done. simpl.
  by rewrite credit_loop_modify.
Qed.

Lemma account_expense_Ok e d :
  expense_accountable (dict_keys d) e ->
  ∃ d', account_expense d e = Ok d' ∧ dict_keys d' = dict_keys d.
Proof.
  intros (Hsa & Hpb & Hin). rewrite account_expense_unfold by done.
  destruct (modify_each_Ok (fun b => fadd b (payer_share e)) (paid_by e) d)
    as (d1 & -> & Hk1); [done|]. simpl.
  destruct (modify_each_Ok (fun b => fsub b (sharer_share e)) (split_among e) d1)
    as (d2 & -> & Hk2); [by rewrite Hk1|].
  exists d2. split; [done|]. by rewrite Hk2.
Qed.

Lemma account_expense_get e d d' p :
  NoDup (paid_by e) -> NoDup (split_among e) -> split_among e ≠ [] ->
  account_expense d e = Ok d' ->
  dict_get p d' = (fun b => accrue p b e) <$> dict_get p d.
Proof.
  intros Hpb Hsa Hne. rewrite account_expense_unfold by done.
  intros (d1 & Hd1 & Hd')%bind_Ok.
  rewrite (modify_each_get _ _ _ _ p Hsa Hd'), (modify_each_get _ _ _ _ p Hpb Hd1).
  unfold accrue. destruct (dict_get p d) as [b|]; simpl; [|done].
  by do 2 case_bool_decide.
Qed.

(** An empty list of sharers stops the accounting, whatever came before. *)
Lemma account_expense_no_sharers e d :
  split_among e = [] -> account_expense d e = Raise ZeroDivisionError.
Proof. intros Hsa. unfold account_expense. by rewrite Hsa. Qed.

(** An empty list of payers credits nobody. *)
Lemma account_expense_no_payers e d :
  paid_by e = [] -> split_among e ≠ [] ->
  account_expense d e =
    for_each (fun d k => dict_modify k (fun b => fsub b (sharer_share e)) d)
      (split_among e) d.
Proof. intros Hpb Hsa. rewrite account_expense_unfold by done. by rewrite Hpb. Qed.

(** A payer who is not in the roster is a missing key. *)
Lemma account_expense_unknown_payer e d (l1 l2 : list string) n :
  split_among e ≠ [] -> paid_by e = l1 ++ n :: l2 ->
  l1 ⊆ dict_keys d -> n ∉ dict_keys d ->
  account_expense d e = Raise (KeyError n).
Proof.
  intros Hsa Hpb Hl1 Hn. rewrite account_expense_unfold by done.
  rewrite Hpb, modify_each_missing; done.
Qed.

(** A sharer who is not in the roster is a missing key as well, once the
    payers are through. *)
Lemma account_expense_unknown_sharer e d (l1 l2 : list string) n :
  paid_by e ⊆ dict_keys d -> split_among e = l1 ++ n :: l2 ->
  l1 ⊆ dict_keys d -> n ∉ dict_keys d ->
  account_expense d e = Raise (KeyError n).
Proof.
  intros Hpb Hsa Hl1 Hn. rewrite account_expense_unfold by (rewrite Hsa; by destruct l1).
  destruct (modify_each_Ok (fun b => fadd b (payer_share e)) (paid_by e) d)
    as (d1 & -> & Hk1); [done|]. simpl.
  rewrite Hsa, modify_each_missing; rewrite ?Hk1; done.
Qed.

Lemma accounting_Ok es d :
  Forall (expense_accountable (dict_keys d)) es ->
  ∃ d', for_each account_expense es d = Ok d' ∧ dict_keys d' = dict_keys d.
Proof.
  intros Hes. revert d Hes. induction es as [|e es IH]; intros d Hes; simpl.
  - by exists d.
  - apply Forall_cons in Hes as [He Hes].
    destruct (account_expense_Ok e d He) as (d1 & -> & Hk1). simpl.
    destruct (IH d1) as (d' & Hrun & Hk'); [by rewrite Hk1|].
    exists d'. split; [done|]. by rewrite Hk'.
Qed.

Lemma accounting_get es d d' p :
  Forall (fun e => NoDup (paid_by e) ∧ NoDup (split_among e) ∧ split_among e ≠ []) es ->
  for_each account_expense es d = Ok d' ->
  dict_get p d' = (fun b => fold_left (accrue p) es b) <$> dict_get p d.
Proof.
  intros Hes. revert d. induction Hes as [|e es (Hpb & Hsa & Hne) _ IH]; intros d; simpl.
  - intros [= <-]. by destruct (dict_get p d).
  - intros (d1 & Hd1 & Hd')%bind_Ok.
    rewrite (IH _ Hd'), (account_expense_get _ _ _ p Hpb Hsa Hne Hd1).
    by destruct (dict_get p d).
Qed.

Lemma initial_balances_keys st p :
  p ∈ dict_keys (dict_from_keys (participants st) (fzero : A)) ↔ p ∈ participants st.
Proof. apply dict_from_keys_keys. Qed.

(** [calculate_balances] raises nothing when every expense has someone
    to split among and names only participants; the keys of the result
    are then the participants. *)
Lemma calculate_balances_Ok st :
  Forall (expense_accountable (participants st)) (expenses st) ->
  ∃ d, calculate_balances st = Ok d ∧ ∀ p, p ∈ dict_keys d ↔ p ∈ participants st.
Proof.
  intros Hes. unfold calculate_balances.
  destruct (accounting_Ok (expenses st) (dict_from_keys (participants st) fzero))
    as (d & Hrun & Hkeys).
  - eapply Forall_impl; [exact Hes|]. intros e (Hsa & Hpb & Hin).
    split; [done|]. split; intros x Hx; apply initial_balances_keys; auto.
  - exists d. split; [done|]. intros p. rewrite Hkeys. apply initial_balances_keys.
Qed.

Lemma credit_payer_keys e d payer d' :
  credit_payer e d payer = Ok d' -> dict_keys d' = dict_keys d.
Proof.
  unfold credit_payer. destruct (dict_get payer d) as [v|] eqn:Hv; [|done].
  intros (share & _ & [= <-])%bind_Ok.
  apply dict_keys_set_present. apply dict_get_is_Some. by exists v.
Qed.

Lemma account_expense_keys e d d' :
  account_expense d e = Ok d' -> dict_keys d' = dict_keys d.
Proof.
  unfold account_expense. intros (a & _ & Hrun)%bind_Ok.
  apply bind_Ok in Hrun as (d1 & Hd1 & Hd').
  rewrite (for_each_keys _ _ _ _ (fun da k db => dict_modify_keys k _ da db) Hd').
  apply (for_each_keys _ _ _ _ (credit_payer_keys e) Hd1).
Qed.

Lemma calculate_balances_keys st d p :
  calculate_balances st = Ok d -> p ∈ dict_keys d ↔ p ∈ participants st.
Proof.
  unfold calculate_balances. intros Hrun. rewrite <- initial_balances_keys.
  revert Hrun. generalize (dict_from_keys (participants st) (fzero : A)).
  induction (expenses st) as [|e es IH]; intros d0; simpl.
  - by intros [= <-].
  - intros (d1 & Hd1 & Hd')%bind_Ok.
    by rewrite (IH _ Hd'), (account_expense_keys _ _ _ Hd1).
Qed.

Lemma calculate_balances_snoc st e :
  calculate_balances
    {| trip_name := trip_name st; participants := participants st;
       expenses := expenses st ++ [e] |}
  = d ← calculate_balances st; account_expense d e.
Proof.
  unfold calculate_balances. simpl. rewrite for_each_app.
  destruct (for_each account_expense (expenses st) _) as [d|err]; simpl; [|done].
  by destruct (account_expense d e).
Qed.

Lemma running_balance_untouched p es :
  (∀ e, e ∈ es -> (p ∉ paid_by e) ∧ (p ∉ split_among e)) ->
  running_balance p es = fzero.
Proof.
  unfold running_balance. generalize (fzero : A).
  induction es as [|e es IH]; intros b Hes; simpl; [done|].
  destruct (Hes e) as [Hpb Hsa]; [left|].
  unfold accrue at 2. rewrite !bool_decide_eq_false_2 by done.
  apply IH. intros e' He'. apply Hes. by right.
Qed.

Lemma initial_balances_get st p :
  p ∈ participants st ->
  dict_get p (dict_from_keys (participants st) (fzero : A)) = Some fzero.
Proof.
  intros Hp. unfold dict_from_keys. rewrite dict_fill_get. by rewrite decide_True.
Qed.

(** C2, as amended: on a state whose name lists are sets and whose
    expenses name non-empty subsets of the roster, [calculate_balances]
    returns a mapping whose keys are exactly the roster, in its order; the
    value of each participant is the one accumulated expense by expense
    from 0.0, the payer's share of an expense added and then the sharer's
    share subtracted, in the arithmetic of the amounts; a participant who
    appears in no expense has 0.0. *)
Theorem calculate_balances_spec st :
  names_are_sets st ->
  Forall (expense_within (participants st)) (expenses st) ->
  ∃ d, calculate_balances st = Ok d ∧
       dict_keys d = participants st ∧
       (∀ p, p ∈ participants st ->
             dict_get p d = Some (running_balance p (expenses st))) ∧
       (∀ p, p ∈ participants st ->
             (∀ e, e ∈ expenses st -> (p ∉ paid_by e) ∧ (p ∉ split_among e)) ->
             dict_get p d = Some fzero).
Proof.
  intros [Hroster Hsets] Hwithin. unfold calculate_balances.
  pose (d0 := dict_from_keys (participants st) (fzero : A)).
  assert (Hk0 : dict_keys d0 = participants st).
  { unfold d0. rewrite dict_from_keys_NoDup by done. unfold dict_keys.
    rewrite <- list_fmap_compose. apply list_fmap_id. }
  destruct (accounting_Ok (expenses st) d0) as (d & Hrun & Hkeys).
  { rewrite Hk0. eapply Forall_impl; [exact Hwithin|].
    by intros e (_ & ? & ? & ?). }
  fold d0. exists d. split; [done|]. split; [by rewrite Hkeys|].
  assert (Hget : ∀ p, p ∈ participants st ->
            dict_get p d = Some (running_balance p (expenses st))).
  { intros p Hp. rewrite (accounting_get (expenses st) d0 d p); [|..|done].
    - unfold d0. by rewrite initial_balances_get.
    - apply Forall_forall. intros e He.
      rewrite Forall_forall in Hsets. destruct (Hsets e He) as [? ?].
      rewrite Forall_forall in Hwithin. by destruct (Hwithin e He) as (_ & ? & _). }
  split; [done|]. intros p Hp Hnone.
  by rewrite Hget, running_balance_untouched.
Qed.

End Balances.

(** Scenario A: Alice 50.0, Bob -50.0. *)
Lemma calculate_balances_spec_witness :
  names_are_sets scenario_A ∧
  Forall (expense_within (participants scenario_A)) (expenses scenario_A) ∧
  ∃ d, calculate_balances scenario_A = Ok d ∧
       dict_keys d = ["Alice"; "Bob"] ∧
       dict_get "Alice" d = Some 50%float ∧
       dict_get "Bob" d = Some (-50)%float.
Proof.
  assert (Hsets : names_are_sets scenario_A) by compute_done.
  assert (Hin : Forall (expense_within (participants scenario_A)) (expenses scenario_A))
    by compute_done.
  split; [exact Hsets|]. split; [exact Hin|].
  destruct (calculate_balances_spec scenario_A Hsets Hin) as (d & Hrun & Hkeys & Hget & _).
  exists d. split; [exact Hrun|]. split; [exact Hkeys|].
  rewrite (Hget "Alice" ltac:(compute_done)), (Hget "Bob" ltac:(compute_done)).
  split; reflexivity.
Defined.

(** In exact arithmetic the accumulated balance is the formula of the
    specification. *)
Lemma fold_left_Qplus_shift (xs : list Q) (a : Q) :
  (fold_left Qplus xs a == a + fold_left Qplus xs 0)%Q.
Proof.
  revert a. induction xs as [|x xs IH]; intros a; simpl; [lra|].
  rewrite (IH (a + x)%Q), (IH (0 + x)%Q). lra.
Qed.

Lemma running_balance_exact (p : string) (es : list (Expense Q)) :
  (running_balance p es == balance_formula p es)%Q.
Proof.
  unfold running_balance, balance_formula, paid_total, owed_total, fsum. simpl.
  assert (Hgen : ∀ b : Q,
    (fold_left (accrue p) es b ==
     b + fold_left Qplus (payer_share <$> filter (fun e => p ∈ paid_by e) es) 0
       - fold_left Qplus (sharer_share <$> filter (fun e => p ∈ split_among e) es) 0)%Q).
  { induction es as [|e es IH]; intros b; [simpl; lra|].
    cbn [fold_left]. rewrite IH. unfold accrue. rewrite !filter_cons.
    destruct (decide (p ∈ paid_by e)) as [Hp|Hp];
      destruct (decide (p ∈ split_among e)) as [Hs|Hs];
      rewrite ?(bool_decide_eq_true_2 _ Hp), ?(bool_decide_eq_false_2 _ Hp),
        ?(bool_decide_eq_true_2 _ Hs), ?(bool_decide_eq_false_2 _ Hs);
      cbn [fmap list_fmap fold_left fadd fsub Q_amount];
      rewrite ?(fold_left_Qplus_shift _ (0 + _)%Q); lra. }
  rewrite Hgen. lra.
Qed.

(** C2, the claim as written fails: both name lists of every expense are
    non-empty subsets of the roster, the program leaves Alice at 1.0, the
    formula gives 2 (and 0.0 when its sums are taken in binary64). *)
Lemma rounding_departs_from_formula :
  names_are_sets (uneven_trip float_of_Z) ∧
  Forall (expense_within ["Alice"; "Bob"]) (expenses (uneven_trip float_of_Z)) ∧
  calculate_balances (uneven_trip float_of_Z)
    = Ok [("Alice", 1%float); ("Bob", (-2)%float)] ∧
  balance_formula "Alice" (expenses (uneven_trip float_of_Z)) = 0%float ∧
  (balance_formula "Alice" (expenses (uneven_trip inject_Z)) == 2)%Q.
Proof.
  split; [compute_done|]. split; [compute_done|]. by vm_compute.
Qed.

(** ** Faults of [calculate_balances] *)

Section Faults.
Context {A : Type} `{Amount A}.
Implicit Types (e : Expense A) (st : TripData A).

Lemma get_settlements_Raise st err :
  calculate_balances st = Raise err -> get_settlements st = Raise err.
Proof. intros Hrun. unfold get_settlements. by rewrite Hrun. Qed.

(** An expense nobody is left to share stops [calculate_balances] with a
    division fault, when the expenses before it are in order. *)
Lemma calculate_balances_no_sharers st (l1 l2 : list (Expense A)) e :
  expenses st = l1 ++ e :: l2 ->
  Forall (expense_accountable (participants st)) l1 ->
  split_among e = [] ->
  calculate_balances st = Raise ZeroDivisionError.
Proof.
  intros Hes Hl1 Hsa. unfold calculate_balances. rewrite Hes, for_each_app.
  destruct (accounting_Ok l1 (dict_from_keys (participants st) fzero))
    as (d & -> & _).
  { eapply Forall_impl; [exact Hl1|]. intros e0 (? & Hpb & Hin).
    split; [done|]. split; intros x Hx; apply initial_balances_keys; auto. }
  simpl. by rewrite account_expense_no_sharers.
Qed.

(** A new expense with a payer outside the roster is accepted, and is a
    missing key for [calculate_balances] from then on. *)
Lemma add_expense_unknown_payer (parse : string -> option A) st d0
    (desc : string) (x : A) (pb sa : list string) (c now : string)
    (l1 l2 : list string) (n : string) :
  calculate_balances st = Ok d0 ->
  sa ≠ [] -> pb = l1 ++ n :: l2 -> l1 ⊆ participants st -> n ∉ participants st ->
  ∃ e st', add_expense parse desc (PyNum x) pb sa c now st = Ok (e, st') ∧
           paid_by e = pb ∧ participants st' = participants st ∧
           calculate_balances st' = Raise (KeyError n).
Proof.
  intros Hd0 Hsa Hpb Hl1 Hn. do 2 eexists. split; [reflexivity|].
  split; [done|]. split; [done|].
  rewrite calculate_balances_snoc, Hd0. simpl.
  apply (account_expense_unknown_payer _ _ l1 l2); try done.
  - intros k Hk. apply (calculate_balances_keys st); auto.
  - by rewrite (calculate_balances_keys st d0 n Hd0).
Qed.

Lemma add_expense_unknown_sharer (parse : string -> option A) st d0
    (desc : string) (x : A) (pb sa : list string) (c now : string)
    (l1 l2 : list string) (n : string) :
  calculate_balances st = Ok d0 ->
  pb ⊆ participants st ->
  sa = l1 ++ n :: l2 -> l1 ⊆ participants st -> n ∉ participants st ->
  ∃ e st', add_expense parse desc (PyNum x) pb sa c now st = Ok (e, st') ∧
           split_among e = sa ∧ participants st' = participants st ∧
           calculate_balances st' = Raise (KeyError n).
Proof.
  intros Hd0 Hpb Hsa Hl1 Hn. do 2 eexists. split; [reflexivity|].
  split; [done|]. split; [done|].
  rewrite calculate_balances_snoc, Hd0. simpl.
  apply (account_expense_unknown_sharer _ _ l1 l2); try done.
  - intros k Hk. apply (calculate_balances_keys st); auto.
  - intros k Hk. apply (calculate_balances_keys st); auto.
  - by rewrite (calculate_balances_keys st d0 n Hd0).
Qed.

End Faults.

(** C1, the program at the failing input: Alice pays 100 for Bob, Bob is
    removed; the expense is kept with nobody to split among, and both
    [calculate_balances] and [get_settlements] raise the division fault
    the claim excludes. *)
Theorem empty_split_raises_ZeroDivisionError :
  ∃ st, after_sharer_removed = Ok st ∧
        participants st = ["Alice"] ∧
        (paid_by <$> expenses st) = [["Alice"]] ∧
        (split_among <$> expenses st) = [[]] ∧
        calculate_balances st = Raise ZeroDivisionError ∧
        get_settlements st = Raise ZeroDivisionError.
Proof.
  eexists. split; [vm_compute; reflexivity|].
  split; [done|]. split; [done|]. split; [done|].
  assert (Hrun : ∀ st : TripData float,
            split_among <$> expenses st = [[]] ->
            calculate_balances st = Raise ZeroDivisionError).
  { intros st Hst. destruct (expenses st) as [|e [|? ?]] eqn:Hes; try done.
    injection Hst as Hsa.
    by eapply (calculate_balances_no_sharers _ [] []). }
  split; [|apply get_settlements_Raise]; apply Hrun; reflexivity.
Qed.

(** C10: [add_expense] takes the names as they come. Scenario A accepts
    an expense paid by Carol, who is not a participant, and one split
    with Carol; after either, [calculate_balances] raises [KeyError] on
    Carol and returns no mapping. *)
Theorem unknown_name_accepted_then_KeyError :
  (∃ e st', add_expense no_parser "taxi" (PyNum 30%float) ["Alice"; "Carol"] ["Bob"]
              "General" "2024-01-02 09:00" scenario_A = Ok (e, st') ∧
            "Carol" ∈ paid_by e ∧ ("Carol" ∉ participants st') ∧
            expenses st' = expenses scenario_A ++ [e] ∧
            calculate_balances st' = Raise (KeyError "Carol")) ∧
  (∃ e st', add_expense no_parser "taxi" (PyNum 30%float) ["Alice"] ["Bob"; "Carol"]
              "General" "2024-01-02 09:00" scenario_A = Ok (e, st') ∧
            "Carol" ∈ split_among e ∧ ("Carol" ∉ participants st') ∧
            expenses st' = expenses scenario_A ++ [e] ∧
            calculate_balances st' = Raise (KeyError "Carol")).
Proof.
  assert (Hd0 : calculate_balances scenario_A
                = Ok [("Alice", 50%float); ("Bob", (-50)%float)]) by reflexivity.
  split.
  - destruct (add_expense_unknown_payer no_parser scenario_A _ "taxi" 30%float
                ["Alice"; "Carol"] ["Bob"] "General" "2024-01-02 09:00"
                ["Alice"] [] "Carol" Hd0)
      as (e & st' & Hadd & Hpb & Hps & Hrun); [done|done|compute_done|compute_done|].
    exists e, st'. split; [exact Hadd|]. injection Hadd as <- <-.
    split; [compute_done|]. split; [compute_done|]. split; [done|exact Hrun].
  - destruct (add_expense_unknown_sharer no_parser scenario_A _ "taxi" 30%float
                ["Alice"] ["Bob"; "Carol"] "General" "2024-01-02 09:00"
                ["Bob"] [] "Carol" Hd0)
      as (e & st' & Hadd & Hsa & Hps & Hrun);
      [compute_done|done|compute_done|compute_done|].
    exists e, st'. split; [exact Hadd|]. injection Hadd as <- <-.
    split; [compute_done|]. split; [compute_done|]. split; [done|exact Hrun].
Qed.

(** ** Conservation in exact arithmetic *)

Section Conservation.
Implicit Types (d : dict Q) (e : Expense Q) (st : TripData Q).

Lemma total_balance_cons (k : string) (v : Q) d :
  (total_balance ((k, v) :: d) == v + total_balance d)%Q.
Proof.
  unfold total_balance, fsum. simpl.
  rewrite fold_left_Qplus_shift. lra.
Qed.

Lemma total_balance_set (k : string) (v v' : Q) d :
  dict_get k d = Some v ->
  (total_balance (dict_set k v' d) == total_balance d - v + v')%Q.
Proof.
  induction d as [|[k0 v0] d IH]; cbn [dict_get dict_set]; [done|].
  destruct (decide (k = k0)) as [->|Hne].
  - intros [= ->]. rewrite !total_balance_cons. lra.
  - intros Hget. rewrite !total_balance_cons, (IH Hget). lra.
Qed.

Lemma modify_each_total (f : Q -> Q) (delta : Q) (names : list string) d d' :
  (∀ b, f b == b + delta)%Q ->
  for_each (fun d k => dict_modify k f d) names d = Ok d' ->
  (total_balance d' == total_balance d + inject_Z (Z.of_nat (length names)) * delta)%Q.
Proof.
  intros Hf. revert d. induction names as [|n names IH]; intros d.
  - cbn [for_each length]. intros [= <-]. change (inject_Z (Z.of_nat 0)) with 0%Q. lra.
  - cbn [for_each length]. intros (d1 & Hd1 & Hd')%bind_Ok.
    unfold dict_modify in Hd1. destruct (dict_get n d) as [v|] eqn:Hv; [|done].
    injection Hd1 as <-. rewrite (IH _ Hd'), (total_balance_set _ _ _ _ Hv), Hf.
    rewrite Nat2Z.inj_succ, <- Z.add_1_r, inject_Z_plus.
    change (inject_Z 1) with 1%Q. lra.
Qed.

Lemma share_times_count (a : Q) {X : Type} (l : list X) :
  l ≠ [] ->
  (inject_Z (Z.of_nat (length l)) * fdiv_len a (length l) == a)%Q.
Proof.
  intros Hl. simpl. field. destruct l as [|x l]; [done|].
  intros Hz. cbn [length] in Hz. rewrite Nat2Z.inj_succ in Hz.
  assert (Hpos : (0 < inject_Z (Z.succ (Z.of_nat (length l))))%Q).
  { rewrite <- (Zlt_Qlt 0). lia. }
  rewrite Hz in Hpos. by apply Qlt_irrefl in Hpos.
Qed.

(** An expense that has payers takes as much as it gives. *)
Lemma account_expense_total e d d' :
  paid_by e ≠ [] -> account_expense d e = Ok d' ->
  (total_balance d' == total_balance d)%Q.
Proof.
  intros Hpb Hrun.
  assert (Hsa : split_among e ≠ []).
  { intros Hsa. by rewrite account_expense_no_sharers in Hrun. }
  rewrite account_expense_unfold in Hrun by done.
  apply bind_Ok in Hrun as (d1 & Hd1 & Hd').
  assert (Hsub : ∀ b : Q, (fsub b (sharer_share e) == b + - sharer_share e)%Q)
    by (intros; cbn [fsub Q_amount]; lra).
  assert (Hadd : ∀ b : Q, (fadd b (payer_share e) == b + payer_share e)%Q)
    by (intros; cbn [fadd Q_amount]; lra).
  rewrite (modify_each_total _ _ _ _ _ Hsub Hd'), (modify_each_total _ _ _ _ _ Hadd Hd1).
  pose proof (share_times_count (amount e) (paid_by e) Hpb) as Hp.
  pose proof (share_times_count (amount e) (split_among e) Hsa) as Hs.
  unfold payer_share, sharer_share. lra.
Qed.

Lemma accounting_total (es : list (Expense Q)) d d' :
  Forall (fun e => paid_by e ≠ []) es ->
  for_each account_expense es d = Ok d' ->
  (total_balance d' == total_balance d)%Q.
Proof.
  intros Hes. revert d. induction Hes as [|e es He _ IH]; intros d; simpl.
  - by intros [= <-].
  - intros (d1 & Hd1 & Hd')%bind_Ok.
    by rewrite (IH _ Hd'), (account_expense_total _ _ _ He Hd1).
Qed.

Lemma dict_set_all_zero (k : string) d :
  Forall (fun v => v == 0)%Q (dict_values d) ->
  Forall (fun v => v == 0)%Q (dict_values (dict_set k 0%Q d)).
Proof.
  unfold dict_values. induction d as [|[k0 v0] d IH]; simpl; intros Hd.
  - by repeat constructor.
  - apply Forall_cons in Hd as [Hv0 Hd]. destruct (decide (k = k0)); simpl.
    + by constructor.
    + constructor; [done|]. by apply IH.
Qed.

Lemma all_zero_total d :
  Forall (fun v => v == 0)%Q (dict_values d) -> (total_balance d == 0)%Q.
Proof.
  induction d as [|[k v] d IH]; intros Hd; [reflexivity|].
  unfold dict_values in Hd. rewrite fmap_cons in Hd.
  apply Forall_cons in Hd as [Hv Hd]. simpl in Hv.
  rewrite total_balance_cons, (IH Hd), Hv. lra.
Qed.

Lemma initial_total (ks : list string) :
  (total_balance (dict_from_keys ks (0 : Q)) == 0)%Q.
Proof.
  apply all_zero_total. unfold dict_from_keys.
  assert (Hgen : ∀ d, Forall (fun v => v == 0)%Q (dict_values d) ->
            Forall (fun v => v == 0)%Q
              (dict_values (fold_left (fun d k => dict_set k 0%Q d) ks d))).
  { induction ks as [|k ks IH]; intros d Hd; simpl; [done|].
    apply IH. by apply dict_set_all_zero. }
  apply Hgen. constructor.
Qed.


End Conservation.



(** ** Settlements: the loops of [get_settlements] and the greedy scan *)

Section Settlements.
Context {A : Type} `{Amount A}.
Implicit Types (cs pre : list (string * A)) (recs : list (Settlement A))
  (s : Sweep A) (balances : dict A).

Lemma insert_after_prefix pre (c c' : string * A) cs :
  <[length pre := c']> (pre ++ c :: cs) = (pre ++ [c']) ++ cs.
Proof.
  rewrite <- (Nat.add_0_r (length pre)), insert_app_r. simpl.
  by rewrite <- app_assoc.
Qed.

(** The indexed loop, started at the end of [pre], does to the creditors
    after it what the scan does, and appends the records of the scan. *)
Lemma creditor_loop_scan (debtor : string) cs :
  ∀ fuel pre debt recs,
    length cs <= fuel ->
    let out := creditor_loop fuel (length pre) debtor
                 {| creditors := pre ++ cs; remaining_debt := debt;
                    settlements := recs |} in
    creditors out = pre ++ (scan_transfers_above_cent debtor debt cs).1 ∧
    settlements out = recs ++ (scan_transfers_above_cent debtor debt cs).2.
Proof.
  induction cs as [|[creditor credit] cs IH]; intros fuel pre debt recs Hfuel.
  - destruct fuel as [|fuel]; simpl.
    + by rewrite !app_nil_r.
    + rewrite app_nil_r, lookup_ge_None_2 by done. simpl.
      by rewrite !app_nil_r.
  - destruct fuel as [|fuel]; [simpl in Hfuel; lia|].
    cbn [creditor_loop creditors remaining_debt settlements
         scan_transfers_above_cent].
    rewrite list_lookup_middle by done.
    destruct (fle debt fcent); [simpl; by rewrite app_nil_r|].
    destruct (flt fcent (py_min debt credit)).
    + rewrite insert_after_prefix.
      replace (S (length pre))
        with (length (pre ++ [(creditor, fsub credit (py_min debt credit))]))
        by (rewrite length_app; simpl; lia).
      destruct (IH fuel (pre ++ [(creditor, fsub credit (py_min debt credit))])
                  (fsub debt (py_min debt credit))
                  (recs ++ [record debtor creditor (py_min debt credit)]))
        as [Hcs Hrecs]; [simpl in Hfuel; lia|].
      unfold record in *. rewrite Hcs, Hrecs.
      destruct (scan_transfers_above_cent _ _ cs) as [rest' records]. simpl.
      by rewrite <- !app_assoc.
    + replace (S (length pre)) with (length (pre ++ [(creditor, credit)]))
        by (rewrite length_app; simpl; lia).
      replace (pre ++ (creditor, credit) :: cs)
        with ((pre ++ [(creditor, credit)]) ++ cs) by (by rewrite <- app_assoc).
      destruct (IH fuel (pre ++ [(creditor, credit)]) debt recs)
        as [Hcs Hrecs]; [simpl in Hfuel; lia|].
      rewrite Hcs, Hrecs.
      destruct (scan_transfers_above_cent _ _ cs) as [rest' records]. simpl.
      by rewrite <- !app_assoc.
Qed.

Lemma debtor_step_scan s (debtor : string * A) :
  creditors (debtor_step s debtor)
    = (scan_transfers_above_cent debtor.1 debtor.2 (creditors s)).1 ∧
  settlements (debtor_step s debtor)
    = settlements s ++ (scan_transfers_above_cent debtor.1 debtor.2 (creditors s)).2.
Proof.
  unfold debtor_step.
  apply (creditor_loop_scan debtor.1 (creditors s) (length (creditors s)) []
           debtor.2 (settlements s)). done.
Qed.

Lemma sweep_greedy (debtors : list (string * A)) s :
  settlements (fold_left debtor_step debtors s)
    = settlements s ++ greedy scan_transfers_above_cent debtors (creditors s).
Proof.
  revert s. induction debtors as [|[debtor debt] debtors IH]; intros s; simpl.
  - by rewrite app_nil_r.
  - destruct (debtor_step_scan s (debtor, debt)) as [Hcs Hrecs]. simpl in *.
    rewrite IH, Hcs, Hrecs.
    destruct (scan_transfers_above_cent debtor debt (creditors s)). simpl.
    by rewrite <- app_assoc.
Qed.

(** On a mapping, the items in order are the keys in order with their
    values. *)
Lemma balance_of_head (k : string) (v : A) balances :
  balance_of ((k, v) :: balances) k = v.
Proof. unfold balance_of. simpl. by rewrite decide_True. Qed.

Lemma balance_of_tail (k p : string) (v : A) balances :
  p ≠ k -> balance_of ((k, v) :: balances) p = balance_of balances p.
Proof. intros Hne. unfold balance_of. simpl. by rewrite decide_False. Qed.

Lemma filter_fmap_ext {X Y : Type} (P Q : X -> Prop)
    `{!∀ x, Decision (P x)} `{!∀ x, Decision (Q x)} (f g : X -> Y) (l : list X) :
  (∀ x, x ∈ l -> (P x ↔ Q x) ∧ f x = g x) ->
  f <$> filter P l = g <$> filter Q l.
Proof.
  induction l as [|x l IH]; intros Hl; [done|].
  destruct (Hl x) as [HPQ Hfg]; [left|].
  rewrite !filter_cons.
  assert (Htail : f <$> filter P l = g <$> filter Q l).
  { apply IH. intros y Hy. apply Hl. by right. }
  destruct (decide (P x)) as [HP|HP]; destruct (decide (Q x)) as [HQ|HQ];
    try tauto.
  by rewrite !fmap_cons, Hfg, Htail.
Qed.

Lemma creditors_of_roster balances :
  NoDup (dict_keys balances) ->
  creditors_of balances = roster_creditors (dict_keys balances) (balance_of balances).
Proof.
  unfold creditors_of, roster_creditors, dict_keys.
  induction balances as [|[k v] balances IH]; intros Hnd; [done|].
  rewrite fmap_cons in Hnd. apply NoDup_cons in Hnd as [Hk Hnd].
  cbn [omap list_omap fmap list_fmap fst]. rewrite filter_cons.
  rewrite balance_of_head.
  rewrite (IH Hnd).
  assert (Hext :
    (fun p => (p, balance_of balances p))
      <$> filter (fun p => flt fcent (balance_of balances p) = true) balances.*1
    = (fun p => (p, balance_of ((k, v) :: balances) p))
      <$> filter (fun p => flt fcent (balance_of ((k, v) :: balances) p) = true)
            balances.*1).
  { apply filter_fmap_ext. intros p Hp.
    rewrite balance_of_tail; [done|]. by intros ->. }
  rewrite Hext. destruct (flt fcent v) eqn:Hv.
  - rewrite decide_True by done. by rewrite fmap_cons, balance_of_head.
  - by rewrite decide_False by done.
Qed.

Lemma debtors_of_roster balances :
  NoDup (dict_keys balances) ->
  debtors_of balances = roster_debtors (dict_keys balances) (balance_of balances).
Proof.
  unfold debtors_of, roster_debtors, dict_keys.
  induction balances as [|[k v] balances IH]; intros Hnd; [done|].
  rewrite fmap_cons in Hnd. apply NoDup_cons in Hnd as [Hk Hnd].
  cbn [omap list_omap fmap list_fmap fst]. rewrite filter_cons.
  rewrite balance_of_head, (IH Hnd).
  assert (Hext :
    (fun p => (p, fneg (balance_of balances p)))
      <$> filter (fun p => flt (balance_of balances p) (fneg fcent) = true) balances.*1
    = (fun p => (p, fneg (balance_of ((k, v) :: balances) p)))
      <$> filter (fun p => flt (balance_of ((k, v) :: balances) p) (fneg fcent) = true)
            balances.*1).
  { apply filter_fmap_ext. intros p Hp.
    rewrite balance_of_tail; [done|]. by intros ->. }
  rewrite Hext. destruct (flt v (fneg fcent)) eqn:Hv.
  - rewrite decide_True by done. by rewrite fmap_cons, balance_of_head.
  - by rewrite decide_False by done.
Qed.

(** The two loops of [get_settlements] are the greedy computation over
    the lists of debtors and creditors the program builds. *)
Lemma settle_sweep balances :
  settle balances
    = greedy scan_transfers_above_cent (debtors_of balances) (creditors_of balances).
Proof. unfold settle, sweep. by rewrite sweep_greedy. Qed.

(** C3, as amended: on every balance mapping [get_settlements] computes
    the greedy settlement in which creditors (balance > 0.01) and debtors
    (balance < -0.01) stand in the order of the roster, debtors are taken
    left to right, each scanning the creditors in order while its
    remaining debt exceeds 0.01, and a transfer of
    [min(remaining_debt, remaining_credit)] takes place only when that
    amount exceeds 0.01: then it is recorded, rounded to two places, and
    subtracted from the debt and from that creditor's credit for all that
    follows; otherwise the creditor is passed over and nothing changes. *)
Theorem settle_is_greedy balances :
  NoDup (dict_keys balances) ->
  settle balances = settle_greedy (dict_keys balances) (balance_of balances).
Proof.
  intros Hnd. rewrite settle_sweep. unfold settle_greedy.
  by rewrite creditors_of_roster, debtors_of_roster.
Qed.

(** The mapping [calculate_balances] hands to the settlement has each
    participant once; on a roster without repetitions its keys are the
    roster. *)
Lemma calculate_balances_NoDup_keys (st : TripData A) balances :
  calculate_balances st = Ok balances ->
  NoDup (dict_keys balances) ∧
  (NoDup (participants st) -> dict_keys balances = participants st).
Proof.
  unfold calculate_balances. intros Hrun.
  rewrite (for_each_keys _ _ _ _ (fun d e d' => account_expense_keys e d d') Hrun).
  split; [apply dict_from_keys_NoDup_keys|]. intros Hnd.
  rewrite dict_from_keys_NoDup by done. unfold dict_keys.
  rewrite <- list_fmap_compose. apply list_fmap_id.
Qed.

Lemma get_settlements_greedy (st : TripData A) balances :
  calculate_balances st = Ok balances ->
  get_settlements st = Ok (settle_greedy (dict_keys balances) (balance_of balances)).
Proof.
  intros Hrun. unfold get_settlements. rewrite Hrun. simpl. f_equal.
  destruct (calculate_balances_NoDup_keys st balances Hrun) as [Hnd _].
  rewrite settle_sweep. unfold settle_greedy.
  by rewrite creditors_of_roster, debtors_of_roster.
Qed.

End Settlements.

(** The five travellers. *)
Lemma settle_is_greedy_witness :
  ∃ b, calculate_balances crumbs_trip = Ok b ∧
       NoDup (dict_keys b) ∧
       settle b = settle_greedy (dict_keys b) (balance_of b) ∧
       (s_amount <$> settle b) = [1; 0.5; 0.5]%float.
Proof.
  eexists. split; [vm_compute; reflexivity|].
  assert (Hnd : NoDup ["Alice"; "Bob"; "Carol"; "Dave"; "Erin"]) by compute_done.
  split; [exact Hnd|]. split; [|reflexivity].
  apply settle_is_greedy. exact Hnd.
Defined.

(** C3, the claim as written fails. Bob's payment leaves Alice a credit
    of 0.008; the program passes her over when Carol and Erin scan, so
    both settle 0.5 with Dave, while the computation of the claim takes
    her 0.008 off Carol's debt without a record and ends with 0.49 and
    0.51. *)
Lemma settle_departs_from_the_letter :
  ∃ b, calculate_balances crumbs_trip = Ok b ∧
       dict_keys b = participants crumbs_trip ∧
       get_settlements crumbs_trip = Ok (settle b) ∧
       settle b = [ {| s_from := "Bob"; s_to := "Alice"; s_amount := 1%float |};
                    {| s_from := "Carol"; s_to := "Dave"; s_amount := 0.5%float |};
                    {| s_from := "Erin"; s_to := "Dave"; s_amount := 0.5%float |} ] ∧
       settle_to_the_letter (dict_keys b) (balance_of b)
         = [ {| s_from := "Bob"; s_to := "Alice"; s_amount := 1%float |};
             {| s_from := "Carol"; s_to := "Dave"; s_amount := 0.49%float |};
             {| s_from := "Erin"; s_to := "Dave"; s_amount := 0.51%float |} ].
Proof. eexists. split; [vm_compute; reflexivity|]. by vm_compute. Qed.


(** ** Exact arithmetic: comparisons and rounding *)

Lemma Qltb_lt (x y : Q) : flt x y = true ↔ (x < y)%Q.
Proof.
  simpl. unfold Qltb. rewrite negb_true_iff, <- not_true_iff_false, Qle_bool_iff.
  split; [apply Qnot_le_lt | apply Qlt_not_le].
Qed.

Lemma Qltb_ge (x y : Q) : flt x y = false ↔ (y <= x)%Q.
Proof.
  simpl. unfold Qltb. rewrite negb_false_iff. apply Qle_bool_iff.
Qed.

Lemma Qleb_le (x y : Q) : fle x y = true ↔ (x <= y)%Q.
Proof. apply Qle_bool_iff. Qed.

Lemma Qleb_gt (x y : Q) : fle x y = false ↔ (y < x)%Q.
Proof.
  simpl. rewrite <- not_true_iff_false, Qle_bool_iff.
  split; [apply Qnot_le_lt | apply Qlt_not_le].
Qed.

Lemma round_half_even_div_near (n d : Z) :
  (0 < d)%Z ->
  (- d <= 2 * (d * round_half_even_div n d) - 2 * n <= d)%Z.
Proof.
  intros Hd. unfold round_half_even_div.
  pose proof (Z.div_mod n d ltac:(lia)) as Hdiv.
  pose proof (Z.mod_pos_bound n d Hd) as Hmod.
  destruct (Z.compare_spec (2 * (n mod d)) d) as [Heq|Hlt|Hgt];
    [destruct (Z.even (n / d))|..]; nia.
Qed.

(** Rounding to two places moves an amount by at most half a cent. *)
Lemma Qround2_near (x : Q) : within (1 # 200) (fround2 x - x).
Proof.
  destruct x as [a b]. simpl. unfold Qround2, within. simpl.
  destruct (Z.leb_spec 0 (a * 100)) as [Hpos|Hneg].
  - pose proof (round_half_even_div_near (a * 100) (Z.pos b) ltac:(lia)) as Hr.
    unfold Qle, Qminus, Qplus, Qopp. simpl. nia.
  - pose proof (round_half_even_div_near (- (a * 100)) (Z.pos b) ltac:(lia)) as Hr.
    unfold Qle, Qminus, Qplus, Qopp. simpl. nia.
Qed.

Lemma slack_0 : (slack 0 == 0)%Q.
Proof. reflexivity. Qed.

Lemma slack_S (n : nat) : (slack (S n) == slack n + (1 # 200))%Q.
Proof.
  unfold slack. rewrite Nat2Z.inj_succ, <- Z.add_1_r, inject_Z_plus.
  change (inject_Z 1) with 1%Q. lra.
Qed.

Lemma slack_add (n m : nat) : (slack (n + m) == slack n + slack m)%Q.
Proof.
  unfold slack. rewrite Nat2Z.inj_add, inject_Z_plus. lra.
Qed.

Lemma slack_nonneg (n : nat) : (0 <= slack n)%Q.
Proof.
  induction n as [|n IH]; [by rewrite slack_0|]. rewrite slack_S. lra.
Qed.

Lemma slack_mono (n m : nat) : n <= m -> (slack n <= slack m)%Q.
Proof.
  intros Hnm. replace m with (n + (m - n)) by lia. rewrite slack_add.
  pose proof (slack_nonneg (m - n)). lra.
Qed.

(** ** Exact arithmetic: the flows of a list of settlements *)

Section Flows.
Implicit Types (p : string) (ss recs : list (Settlement Q)) (cs : list (string * Q)).

Lemma paid_app p ss1 ss2 : (paid p (ss1 ++ ss2) == paid p ss1 + paid p ss2)%Q.
Proof.
  induction ss1 as [|s ss1 IH]; simpl; [lra|].
  case_bool_decide; rewrite ?IH; lra.
Qed.

Lemma received_app p ss1 ss2 :
  (received p (ss1 ++ ss2) == received p ss1 + received p ss2)%Q.
Proof.
  induction ss1 as [|s ss1 IH]; simpl; [lra|].
  case_bool_decide; rewrite ?IH; lra.
Qed.

Lemma count_from_app p ss1 ss2 :
  count_from p (ss1 ++ ss2) = (count_from p ss1 + count_from p ss2)%nat.
Proof. unfold count_from. by rewrite filter_app, length_app. Qed.

Lemma count_to_app p ss1 ss2 :
  count_to p (ss1 ++ ss2) = (count_to p ss1 + count_to p ss2)%nat.
Proof. unfold count_to. by rewrite filter_app, length_app. Qed.

Lemma paid_nothing p ss :
  Forall (fun s => s_from s ≠ p) ss -> paid p ss = 0%Q ∧ count_from p ss = 0%nat.
Proof.
  unfold count_from. induction 1 as [|s ss Hs _ [IHp IHc]]; simpl; [done|].
  rewrite bool_decide_eq_false_2 by done.
  by rewrite filter_cons_False by done.
Qed.

Lemma received_nothing p ss :
  Forall (fun s => s_to s ≠ p) ss -> received p ss = 0%Q ∧ count_to p ss = 0%nat.
Proof.
  unfold count_to. induction 1 as [|s ss Hs _ [IHp IHc]]; simpl; [done|].
  rewrite bool_decide_eq_false_2 by done.
  by rewrite filter_cons_False by done.
Qed.

Lemma adjusted_balance_flows p (v : Q) ss :
  (adjusted_balance p v ss == v + paid p ss - received p ss)%Q.
Proof.
  unfold adjusted_balance. revert v.
  induction ss as [|s ss IH]; intros v; simpl; [lra|].
  rewrite IH. unfold apply_settlement.
  do 2 case_bool_decide; cbn [fadd fsub Q_amount]; lra.
Qed.

Lemma count_from_involved p ss : count_from p ss <= involved p ss.
Proof.
  unfold count_from, involved. induction ss as [|s ss IH]; [done|].
  rewrite !filter_cons.
  destruct (decide (s_from s = p)); destruct (decide (_ ∨ _)); simpl; try lia.
  tauto.
Qed.

Lemma count_to_involved p ss : count_to p ss <= involved p ss.
Proof.
  unfold count_to, involved. induction ss as [|s ss IH]; [done|].
  rewrite !filter_cons.
  destruct (decide (s_to s = p)); destruct (decide (_ ∨ _)); simpl; try lia.
  tauto.
Qed.

Lemma not_involved p ss :
  Forall (fun s => s_from s ≠ p ∧ s_to s ≠ p) ss -> involved p ss = 0%nat.
Proof.
  unfold involved. induction 1 as [|s ss [Hf Ht] _ IH]; [done|].
  rewrite filter_cons_False by tauto. done.
Qed.

(** The credit a creditor list holds for [p]. *)
Lemma balance_of_member cs p :
  p ∈ cs.*1 -> (p, balance_of cs p) ∈ cs.
Proof.
  induction cs as [|[k v] cs IH]; simpl; intros Hp.
  - by apply elem_of_nil in Hp.
  - destruct (decide (p = k)) as [->|Hne].
    + rewrite balance_of_head. left.
    + rewrite balance_of_tail by done. right. apply IH.
      by apply elem_of_cons in Hp as [?|?].
Qed.

End Flows.

(** ** Exact arithmetic: what one scan leaves behind *)

Section ScanOutcome.
Implicit Types (p : string) (recs : list (Settlement Q)) (cs : list (string * Q)).

Lemma py_min_Q (x y : Q) :
  (py_min x y <= x ∧ py_min x y <= y)%Q ∧ (py_min x y = y ∨ py_min x y = x).
Proof.
  unfold py_min. destruct (flt y x) eqn:Hlt.
  - apply Qltb_lt in Hlt. split; [lra | by left].
  - apply Qltb_ge in Hlt. split; [lra | by right].
Qed.

Lemma scan_outcome (debtor : string) cs :
  ∀ debt : Q,
    (0 <= debt)%Q -> Forall (fun c => 0 <= c.2)%Q cs -> NoDup cs.*1 ->
    let out := scan_transfers_above_cent debtor debt cs in
    out.1.*1 = cs.*1 ∧
    Forall2 (fun c c' => 0 <= c'.2 ∧ c'.2 <= c.2)%Q cs out.1 ∧
    Forall (fun r => s_from r = debtor ∧ s_to r ∈ cs.*1) out.2 ∧
    (∀ p, within (slack (count_to p out.2))
            (balance_of cs p - balance_of out.1 p - received p out.2)) ∧
    ∃ debt' : Q,
      (0 <= debt' ∧ debt' <= debt)%Q ∧
      ((debt' <= 1 # 100)%Q ∨ Forall (fun c' => c'.2 <= 1 # 100)%Q out.1) ∧
      within (slack (count_from debtor out.2)) (debt - debt' - paid debtor out.2).
Proof.
  induction cs as [|[creditor credit] cs IH]; intros debt Hdebt Hcs Hnd.
  - cbn [scan_transfers_above_cent fst snd].
    split; [done|]. split; [constructor|]. split; [constructor|].
    split.
    { intros p. unfold within. change (count_to p []) with 0%nat.
      change (received p []) with 0%Q. rewrite slack_0. lra. }
    exists debt. split; [lra|]. split; [right; constructor|].
    unfold within. change (count_from debtor []) with 0%nat.
    change (paid debtor []) with 0%Q. rewrite slack_0. lra.
  - apply Forall_cons in Hcs as [Hcredit Hcs]. simpl in Hcredit.
    rewrite fmap_cons in Hnd. apply NoDup_cons in Hnd as [Hfresh Hnd].
    simpl in Hfresh. cbn [scan_transfers_above_cent].
    destruct (fle debt fcent) eqn:Hbreak.
    { apply Qleb_le in Hbreak. cbn [fcent Q_amount] in Hbreak. cbn [fst snd].
      split; [done|]. split.
      { apply Forall_Forall2_diag. constructor; [simpl; lra|].
        eapply Forall_impl; [exact Hcs|]. intros c Hc. simpl in *. lra. }
      split; [constructor|].
      split.
      { intros p. unfold within. change (count_to p []) with 0%nat.
        change (received p []) with 0%Q. rewrite slack_0. lra. }
      exists debt. split; [lra|]. split; [by left|].
      unfold within. change (count_from debtor []) with 0%nat.
      change (paid debtor []) with 0%Q. rewrite slack_0. lra. }
    apply Qleb_gt in Hbreak. cbn [fcent Q_amount] in Hbreak.
    destruct (py_min_Q debt credit) as [Htransfer Hwhich].
    set (transfer := py_min debt credit) in *.
    destruct (flt fcent transfer) eqn:Hworth.
    + apply Qltb_lt in Hworth. cbn [fcent Q_amount] in Hworth.
      specialize (IH (fsub debt transfer)).
      cbn [fsub Q_amount] in IH |- *.
      destruct (IH ltac:(lra) Hcs Hnd) as (Hnames & Hle & Hrecs & Hper & Hdebt').
      clear IH.
      destruct (scan_transfers_above_cent debtor (debt - transfer)%Q cs)
        as [rest' records] eqn:Hscan.
      cbn [fst snd] in *.
      assert (Hnot_to : Forall (fun r : Settlement Q => s_to r ≠ creditor) records).
      { eapply Forall_impl; [exact Hrecs|]. intros r [_ Hin] Heq.
        rewrite Heq in Hin. done. }
      destruct (received_nothing creditor records Hnot_to) as [Hrecv0 Hcount0].
      split; [by rewrite fmap_cons, Hnames|].
      split; [constructor; [simpl; lra | done]|].
      split.
      { constructor; [split; [done | simpl; left]|].
        eapply Forall_impl; [exact Hrecs|]. intros r [? ?]. split; [done|].
        simpl. by right. }
      split.
      { intros p. pose proof (Qround2_near transfer) as Hround.
        destruct (decide (creditor = p)) as [<-|Hne].
        - rewrite !balance_of_head. unfold count_to.
          cbn [received fold_right record s_to s_amount].
          rewrite filter_cons_True by done.
          rewrite bool_decide_eq_true_2 by done. cbn [length].
          fold (count_to creditor records). fold (received creditor records).
          rewrite Hrecv0, Hcount0. unfold within in *.
          rewrite slack_S, slack_0. lra.
        - rewrite !balance_of_tail by done. unfold count_to.
          cbn [received fold_right record s_to s_amount].
          rewrite filter_cons_False by done.
          rewrite bool_decide_eq_false_2 by done.
          apply Hper. }
      destruct Hdebt' as (debt' & [Hd0 Hd1] & Hside & Hpaid).
      exists debt'. split; [lra|]. split.
      { destruct Hwhich as [Hw|Hw].
        - destruct Hside as [?|Hall]; [by left|right].
          constructor; [simpl; rewrite Hw; lra | done].
        - left. rewrite Hw in Hd1. lra. }
      pose proof (Qround2_near transfer) as Hround.
      unfold count_from. cbn [paid fold_right record s_from s_amount].
      rewrite filter_cons_True by done.
      rewrite bool_decide_eq_true_2 by done. cbn [length].
      fold (count_from debtor records). fold (paid debtor records).
      unfold within in *. rewrite slack_S. lra.
    + apply Qltb_ge in Hworth. cbn [fcent Q_amount] in Hworth.
      assert (Hsmall : (credit <= 1 # 100)%Q).
      { destruct Hwhich as [Hw|Hw]; rewrite Hw in Hworth; lra. }
      destruct (IH debt Hdebt Hcs Hnd) as (Hnames & Hle & Hrecs & Hper & Hdebt').
      clear IH.
      destruct (scan_transfers_above_cent debtor debt cs)
        as [rest' records] eqn:Hscan.
      cbn [fst snd] in *.
      assert (Hnot_to : Forall (fun r : Settlement Q => s_to r ≠ creditor) records).
      { eapply Forall_impl; [exact Hrecs|]. intros r [_ Hin] Heq.
        rewrite Heq in Hin. done. }
      destruct (received_nothing creditor records Hnot_to) as [Hrecv0 Hcount0].
      split; [by rewrite fmap_cons, Hnames|].
      split; [constructor; [simpl; lra | done]|].
      split.
      { eapply Forall_impl; [exact Hrecs|]. intros r [? ?]. split; [done|].
        simpl. by right. }
      split.
      { intros p. destruct (decide (creditor = p)) as [<-|Hne].
        - rewrite !balance_of_head, Hrecv0, Hcount0. unfold within.
          rewrite slack_0. lra.
        - rewrite !balance_of_tail by done. apply Hper. }
      destruct Hdebt' as (debt' & [Hd0 Hd1] & Hside & Hpaid).
      exists debt'. split; [lra|]. split; [|done].
      destruct Hside as [?|Hall]; [by left|right].
      constructor; [simpl; lra | done].
Qed.

End ScanOutcome.

(** ** Exact arithmetic: what the whole sweep leaves behind *)

Section SweepOutcome.
Implicit Types (p : string) (recs : list (Settlement Q)) (cs ds : list (string * Q)).

Lemma credits_shrink_trans cs1 cs2 cs3 :
  Forall2 (fun c c' => 0 <= c'.2 ∧ c'.2 <= c.2)%Q cs1 cs2 ->
  Forall2 (fun c c' => 0 <= c'.2 ∧ c'.2 <= c.2)%Q cs2 cs3 ->
  Forall2 (fun c c' => 0 <= c'.2 ∧ c'.2 <= c.2)%Q cs1 cs3.
Proof.
  intros H12. revert cs3. induction H12 as [|c1 c2 cs1 cs2 [? ?] _ IH];
    intros cs3 H23; inversion H23 as [|? c3 ? cs3' [? ?] ?]; subst; constructor.
  - split; lra.
  - by apply IH.
Qed.

Lemma credits_shrink_nonneg cs cs' :
  Forall2 (fun c c' => 0 <= c'.2 ∧ c'.2 <= c.2)%Q cs cs' ->
  Forall (fun c => 0 <= c.2)%Q cs'.
Proof. induction 1 as [|c c' cs cs' [? ?] _ IH]; constructor; done. Qed.

Lemma credits_shrink_small cs cs' :
  Forall2 (fun c c' => 0 <= c'.2 ∧ c'.2 <= c.2)%Q cs cs' ->
  Forall (fun c => c.2 <= 1 # 100)%Q cs ->
  Forall (fun c => c.2 <= 1 # 100)%Q cs'.
Proof.
  induction 1 as [|c c' cs cs' [? ?] _ IH]; intros Hsmall; [constructor|].
  apply Forall_cons in Hsmall as [? ?]. constructor; [lra | by apply IH].
Qed.

Lemma greedy_outcome ds :
  ∀ cs,
    Forall (fun d => 0 <= d.2)%Q ds -> NoDup ds.*1 ->
    Forall (fun c => 0 <= c.2)%Q cs -> NoDup cs.*1 ->
    let recs := greedy scan_transfers_above_cent ds cs in
    Forall (fun r => s_from r ∈ ds.*1 ∧ s_to r ∈ cs.*1) recs ∧
    ∃ cs_final,
      cs_final.*1 = cs.*1 ∧
      Forall2 (fun c c' => 0 <= c'.2 ∧ c'.2 <= c.2)%Q cs cs_final ∧
      (∀ p, within (slack (count_to p recs))
              (balance_of cs p - balance_of cs_final p - received p recs)) ∧
      (Forall (fun d => ∃ debt' : Q,
                 (0 <= debt' ∧ debt' <= 1 # 100)%Q ∧
                 within (slack (count_from d.1 recs)) (d.2 - debt' - paid d.1 recs)) ds
       ∨ Forall (fun c' => c'.2 <= 1 # 100)%Q cs_final).
Proof.
  induction ds as [|[debtor debt] ds IH]; intros cs Hds Hnd Hcs Hcnd.
  - cbn [greedy]. split; [constructor|]. exists cs. split; [done|].
    split.
    { apply Forall_Forall2_diag. eapply Forall_impl; [exact Hcs|].
      intros c Hc. simpl in *. lra. }
    split; [|left; constructor].
    intros p. unfold within. change (count_to p []) with 0%nat.
    change (received p []) with 0%Q. rewrite slack_0. lra.
  - apply Forall_cons in Hds as [Hdebt Hds]. simpl in Hdebt.
    rewrite fmap_cons in Hnd. apply NoDup_cons in Hnd as [Hfresh Hnd].
    simpl in Hfresh. cbn [greedy].
    destruct (scan_outcome debtor cs debt Hdebt Hcs Hcnd)
      as (Hnames & Hle & Hrecs & Hper & debt' & [Hd0 Hd1] & Hside & Hpaid).
    destruct (scan_transfers_above_cent debtor debt cs) as [cs1 recs1].
    cbn [fst snd] in *.
    destruct (IH cs1 Hds Hnd (credits_shrink_nonneg _ _ Hle)
                ltac:(by rewrite Hnames))
      as (Hrecs2 & cs_final & Hnames2 & Hle2 & Hper2 & Hside2).
    clear IH. set (recs2 := greedy scan_transfers_above_cent ds cs1) in *.
    assert (Hfrom2 : Forall (fun r : Settlement Q => s_from r ≠ debtor) recs2).
    { eapply Forall_impl; [exact Hrecs2|]. intros r [Hin _] Heq.
      rewrite Heq in Hin. done. }
    destruct (paid_nothing debtor recs2 Hfrom2) as [Hpaid2 Hcount2].
    split.
    { apply Forall_app. split.
      - eapply Forall_impl; [exact Hrecs|]. intros r [-> ?]. split; [left|done].
      - eapply Forall_impl; [exact Hrecs2|]. intros r [? ?].
        split; [by right | by rewrite <- Hnames]. }
    exists cs_final. split; [by rewrite Hnames2|].
    split; [by eapply credits_shrink_trans|].
    split.
    { intros p. specialize (Hper p). specialize (Hper2 p).
      unfold within in *. rewrite count_to_app, slack_add, received_app. lra. }
    destruct Hside2 as [Hgood|Hsmall]; [|by right].
    destruct Hside as [Hsettled|Hsmall1];
      [|right; by eapply credits_shrink_small].
    left. constructor.
    + exists debt'. split; [done|]. cbn [fst snd].
      unfold within in *.
      rewrite count_from_app, slack_add, paid_app, Hpaid2, Hcount2, slack_0. lra.
    + rewrite Forall_forall in Hgood. apply Forall_forall.
      intros d Hd. destruct (Hgood d Hd) as (debt2 & Hrange & Hwithin).
      exists debt2. split; [done|].
      assert (Hfrom1 : Forall (fun r : Settlement Q => s_from r ≠ d.1) recs1).
      { eapply Forall_impl; [exact Hrecs|]. intros r [Hr _] Heq.
        apply Hfresh. rewrite <- Hr, Heq. by apply list_elem_of_fmap_2. }
      destruct (paid_nothing d.1 recs1 Hfrom1) as [Hpaid1 Hcount1].
      unfold within in *.
      rewrite count_from_app, slack_add, paid_app, Hpaid1, Hcount1, slack_0. lra.
Qed.

End SweepOutcome.

(** ** Exact arithmetic: settlement validity *)

Section Validity.
Implicit Types (p : string) (b : dict Q) (ss : list (Settlement Q)).

Lemma dict_get_balance_of p b (v : Q) :
  dict_get p b = Some v -> p ∈ dict_keys b ∧ balance_of b p = v.
Proof.
  intros Hget. split.
  - apply dict_get_is_Some. by exists v.
  - unfold balance_of. by rewrite Hget.
Qed.

Lemma roster_creditors_names (ks : list string) (bal : string -> Q) :
  (roster_creditors ks bal).*1 = filter (fun p => flt fcent (bal p) = true) ks.
Proof.
  unfold roster_creditors. rewrite <- list_fmap_compose. apply list_fmap_id.
Qed.

Lemma roster_debtors_names (ks : list string) (bal : string -> Q) :
  (roster_debtors ks bal).*1 = filter (fun p => flt (bal p) (fneg fcent) = true) ks.
Proof.
  unfold roster_debtors. rewrite <- list_fmap_compose. apply list_fmap_id.
Qed.

Lemma roster_creditors_credit (ks : list string) (bal : string -> Q) p :
  p ∈ (roster_creditors ks bal).*1 ->
  balance_of (roster_creditors ks bal) p = bal p.
Proof.
  intros Hp. apply balance_of_member in Hp. unfold roster_creditors in Hp at 2.
  apply list_elem_of_fmap in Hp as (q & [= -> Hq] & _). done.
Qed.

Lemma settle_outcome b :
  NoDup (dict_keys b) -> one_side_settled b (settle b).
Proof.
  intros Hnd. rewrite settle_sweep, creditors_of_roster, debtors_of_roster by done.
  set (bal := balance_of b). set (ks := dict_keys b).
  set (cs := roster_creditors ks bal). set (ds := roster_debtors ks bal).
  assert (Hcnames : ∀ p, p ∈ cs.*1 ↔ p ∈ ks ∧ (1 # 100 < bal p)%Q).
  { intros p. unfold cs. rewrite roster_creditors_names, list_elem_of_filter.
    rewrite Qltb_lt. tauto. }
  assert (Hdnames : ∀ p, p ∈ ds.*1 ↔ p ∈ ks ∧ (bal p < - (1 # 100))%Q).
  { intros p. unfold ds. rewrite roster_debtors_names, list_elem_of_filter.
    rewrite Qltb_lt. tauto. }
  destruct (greedy_outcome ds cs) as (Hrecs & cs_final & Hfnames & Hshrink & Hper & Hside).
  { unfold ds, roster_debtors. apply Forall_fmap, Forall_forall.
    intros p [Hp _]%list_elem_of_filter. apply Qltb_lt in Hp. simpl in *. lra. }
  { unfold ds. rewrite roster_debtors_names. by apply NoDup_filter. }
  { unfold cs, roster_creditors. apply Forall_fmap, Forall_forall.
    intros p [Hp _]%list_elem_of_filter. apply Qltb_lt in Hp. simpl in *. lra. }
  { unfold cs. rewrite roster_creditors_names. by apply NoDup_filter. }
  set (ss := greedy scan_transfers_above_cent ds cs) in *.
  assert (Hnot_from : ∀ p, ¬ (bal p < - (1 # 100))%Q ->
            Forall (fun r : Settlement Q => s_from r ≠ p) ss).
  { intros p Hp. eapply Forall_impl; [exact Hrecs|]. intros r [Hin _] Heq.
    rewrite Heq in Hin. apply Hdnames in Hin as [_ ?]. done. }
  assert (Hnot_to : ∀ p, ¬ (1 # 100 < bal p)%Q ->
            Forall (fun r : Settlement Q => s_to r ≠ p) ss).
  { intros p Hp. eapply Forall_impl; [exact Hrecs|]. intros r [_ Hin] Heq.
    rewrite Heq in Hin. apply Hcnames in Hin as [_ ?]. done. }
  split.
  { intros p v [Hkey Hv]%dict_get_balance_of [Hlo Hhi]. fold bal in Hv.
    assert (Hf := Hnot_from p ltac:(rewrite Hv; lra)).
    assert (Ht := Hnot_to p ltac:(rewrite Hv; lra)).
    split.
    - apply not_involved. apply Forall_forall. intros r Hr.
      rewrite Forall_forall in Hf, Ht. split; auto.
    - rewrite adjusted_balance_flows.
      destruct (paid_nothing p ss Hf) as [-> _].
      destruct (received_nothing p ss Ht) as [-> _]. lra. }
  destruct Hside as [Hdebtors|Hcreditors]; [left|right].
  - intros p v [Hkey Hv]%dict_get_balance_of Hneg. fold bal in Hv. fold ks in Hkey.
    assert (Hin : (p, - v)%Q ∈ ds).
    { unfold ds, roster_debtors. apply list_elem_of_fmap.
      exists p. rewrite Hv. split; [done|]. apply list_elem_of_filter.
      split; [|done]. apply Qltb_lt. rewrite Hv. simpl. lra. }
    rewrite Forall_forall in Hdebtors.
    destruct (Hdebtors _ Hin) as (debt' & [Hd0 Hd1] & Hwithin). cbn [fst snd] in Hwithin.
    destruct (received_nothing p ss (Hnot_to p ltac:(rewrite Hv; lra))) as [Hrecv _].
    pose proof (slack_mono _ _ (count_from_involved p ss)) as Hmono.
    unfold within in *. rewrite adjusted_balance_flows, Hrecv. lra.
  - intros p v [Hkey Hv]%dict_get_balance_of Hpos. fold bal in Hv. fold ks in Hkey.
    assert (Hin : p ∈ cs.*1) by (apply Hcnames; by rewrite Hv).
    assert (Hcredit : balance_of cs p = v).
    { unfold cs. rewrite roster_creditors_credit; done. }
    assert (Hfinal : (0 <= balance_of cs_final p ∧ balance_of cs_final p <= 1 # 100)%Q).
    { rewrite <- Hfnames in Hin. apply balance_of_member in Hin.
      pose proof (credits_shrink_nonneg _ _ Hshrink) as Hnonneg.
      rewrite Forall_forall in Hnonneg, Hcreditors.
      split; [apply (Hnonneg _ Hin) | apply (Hcreditors _ Hin)]. }
    destruct (paid_nothing p ss (Hnot_from p ltac:(rewrite Hv; lra))) as [Hpaid _].
    pose proof (slack_mono _ _ (count_to_involved p ss)) as Hmono.
    specialize (Hper p). rewrite Hcredit in Hper.
    unfold within in *. rewrite adjusted_balance_flows, Hpaid. lra.
Qed.


End Validity.



(** * Further properties of the ledger *)

(** ** When [calculate_balances] returns *)

Section BalancesReturn.
Context {A : Type} `{Amount A}.
Implicit Types (e : Expense A) (es : list (Expense A)) (d : dict A) (st : TripData A).

Lemma modify_each_names {V : Type} (f : V -> V) (names : list string)
    (m m' : dict V) :
  for_each (fun m k => dict_modify k f m) names m = Ok m' -> names ⊆ dict_keys m.
Proof.
  revert m. induction names as [|n names IH]; intros m; simpl.
  - intros _ x Hx. by apply elem_of_nil in Hx.
  - intros (m1 & Hm1 & Hm')%bind_Ok x Hx.
    assert (Hn : n ∈ dict_keys m).
    { destruct (decide (n ∈ dict_keys m)) as [?|Hout]; [done|].
      by rewrite dict_modify_missing in Hm1. }
    apply elem_of_cons in Hx as [->|Hx]; [done|].
    rewrite <- (dict_modify_keys _ _ _ _ Hm1). by apply (IH m1).
Qed.

Lemma account_expense_Ok_inv e d d' :
  account_expense d e = Ok d' -> expense_accountable (dict_keys d) e.
Proof.
  intros Hrun.
  assert (Hsa : split_among e ≠ []).
  { intros Hsa. by rewrite account_expense_no_sharers in Hrun. }
  rewrite account_expense_unfold in Hrun by done.
  apply bind_Ok in Hrun as (d1 & Hd1 & Hd').
  split; [done|]. split; [by eapply modify_each_names|].
  rewrite <- (for_each_keys _ _ _ _ (fun da k db => dict_modify_keys k _ da db) Hd1).
  by eapply modify_each_names.
Qed.

Lemma accounting_Ok_inv es d d' :
  for_each account_expense es d = Ok d' ->
  Forall (expense_accountable (dict_keys d)) es.
Proof.
  revert d. induction es as [|e es IH]; intros d; simpl; [constructor|].
  intros (d1 & Hd1 & Hd')%bind_Ok. constructor.
  - by eapply account_expense_Ok_inv.
  - rewrite <- (account_expense_keys _ _ _ Hd1). by apply IH.
Qed.

Lemma expense_accountable_same_names (ks1 ks2 : list string) e :
  (∀ k, k ∈ ks1 ↔ k ∈ ks2) ->
  expense_accountable ks1 e -> expense_accountable ks2 e.
Proof.
  intros Hks (Hsa & Hpb & Hin). split; [done|].
  split; intros x Hx; apply Hks; auto.
Qed.

Lemma calculate_balances_Ok_inv st d :
  calculate_balances st = Ok d ->
  Forall (expense_accountable (participants st)) (expenses st).
Proof.
  unfold calculate_balances. intros Hrun%accounting_Ok_inv.
  eapply Forall_impl; [exact Hrun|]. intros e.
  apply expense_accountable_same_names. apply initial_balances_keys.
Qed.

(** X1: [calculate_balances] returns a mapping exactly when every expense
    has someone to split among and names participants only. *)
Theorem calculate_balances_returns_iff st :
  (∃ d, calculate_balances st = Ok d) ↔
  Forall (expense_accountable (participants st)) (expenses st).
Proof.
  split.
  - intros [d Hrun]. by eapply calculate_balances_Ok_inv.
  - intros Hes. destruct (calculate_balances_Ok st Hes) as (d & Hrun & _).
    by exists d.
Qed.

Lemma first_failure {X : Type} (P : X -> Prop) `{!∀ x, Decision (P x)} (l : list X) :
  ¬ Forall P l -> ∃ l1 x l2, l = l1 ++ x :: l2 ∧ Forall P l1 ∧ ¬ P x.
Proof.
  induction l as [|x l IH]; intros Hnot.
  - exfalso. apply Hnot. constructor.
  - destruct (decide (P x)) as [HP|HP].
    + destruct IH as (l1 & y & l2 & -> & Hl1 & Hy).
      { intros Hall. apply Hnot. by constructor. }
      exists (x :: l1), y, l2. split; [done|]. split; [by constructor|done].
    + exists [], x, l. split; [done|]. split; [constructor|done].
Qed.

Lemma first_outsider (roster l : list string) :
  ¬ l ⊆ roster -> ∃ l1 n l2, l = l1 ++ n :: l2 ∧ l1 ⊆ roster ∧ n ∉ roster.
Proof.
  intros Hnot.
  destruct (first_failure (fun x => x ∈ roster) l) as (l1 & n & l2 & -> & Hl1 & Hn).
  - intros Hall. apply Hnot. intros x Hx. rewrite Forall_forall in Hall. auto.
  - exists l1, n, l2. split; [done|]. split; [|done].
    intros x Hx. rewrite Forall_forall in Hl1. auto.
Qed.

(** What [calculate_balances] raises, it raises at the first expense
    out of order: the division fault when nobody shares it, else the
    missing key of its first payer, else of its first sharer, outside the
    roster. *)
Lemma calculate_balances_first_failure st (l1 l2 : list (Expense A)) e :
  expenses st = l1 ++ e :: l2 ->
  Forall (expense_accountable (participants st)) l1 ->
  ¬ expense_accountable (participants st) e ->
  (split_among e = [] ∧ calculate_balances st = Raise ZeroDivisionError) ∨
  (∃ n, (n ∈ paid_by e ∨ n ∈ split_among e) ∧ (n ∉ participants st) ∧
        calculate_balances st = Raise (KeyError n)).
Proof.
  intros Hes Hl1 Hbad.
  destruct (decide (split_among e = [])) as [Hsa|Hsa].
  { left. split; [done|]. by eapply calculate_balances_no_sharers. }
  right. unfold calculate_balances. rewrite Hes, for_each_app.
  destruct (accounting_Ok l1 (dict_from_keys (participants st) fzero))
    as (d & -> & Hkeys).
  { eapply Forall_impl; [exact Hl1|]. intros e0.
    apply expense_accountable_same_names. intros k.
    symmetry. apply initial_balances_keys. }
  assert (Hd : ∀ k, k ∈ dict_keys d ↔ k ∈ participants st).
  { intros k. rewrite Hkeys. apply initial_balances_keys. }
  cbn [mbind Result_bind for_each].
  destruct (decide (paid_by e ⊆ participants st)) as [Hpb|Hpb].
  - assert (Hout : ¬ split_among e ⊆ participants st).
    { intros Hin. apply Hbad. by split. }
    destruct (first_outsider _ _ Hout) as (s1 & n & s2 & Hsplit & Hs1 & Hn).
    exists n. split; [right; rewrite Hsplit; apply elem_of_app; right; left|].
    split; [done|].
    rewrite (account_expense_unknown_sharer e d s1 s2 n); [done| |done| |].
    + intros x Hx. apply Hd. auto.
    + intros x Hx. apply Hd. auto.
    + by rewrite Hd.
  - destruct (first_outsider _ _ Hpb) as (p1 & n & p2 & Hpaid & Hp1 & Hn).
    exists n. split; [left; rewrite Hpaid; apply elem_of_app; right; left|].
    split; [done|].
    rewrite (account_expense_unknown_payer e d p1 p2 n); [done|done|done| |].
    + intros x Hx. apply Hd. auto.
    + by rewrite Hd.
Qed.

(** X2: [calculate_balances] raises nothing but a division fault, for an
    expense nobody is left to share, or a missing key, for a name an
    expense carries that is not in the roster. *)
Theorem calculate_balances_raises_only st err :
  calculate_balances st = Raise err ->
  (err = ZeroDivisionError ∧ ∃ e, e ∈ expenses st ∧ split_among e = []) ∨
  (∃ n e, err = KeyError n ∧ e ∈ expenses st ∧
          (n ∈ paid_by e ∨ n ∈ split_among e) ∧ n ∉ participants st).
Proof.
  intros Hraise.
  destruct (decide (Forall (expense_accountable (participants st)) (expenses st)))
    as [Hall|Hnot].
  { destruct (calculate_balances_Ok st Hall) as (d & Hrun & _). congruence. }
  destruct (first_failure _ _ Hnot) as (l1 & e & l2 & Hes & Hl1 & Hbad).
  assert (He : e ∈ expenses st).
  { rewrite Hes. apply elem_of_app. right. left. }
  destruct (calculate_balances_first_failure st l1 l2 e Hes Hl1 Hbad)
    as [[Hsa Hrun]|(n & Hn & Hout & Hrun)]; rewrite Hrun in Hraise;
    injection Hraise as <-.
  - left. split; [done|]. by exists e.
  - right. by exists n, e.
Qed.

(** X3: on a ledger whose expenses name participants only, the one fault
    left is the division by an empty list of sharers: either every
    expense has a sharer and both [calculate_balances] and
    [get_settlements] return, or some expense has none and both raise
    [ZeroDivisionError]. *)
Theorem consistent_ledger_faults st :
  names_in_roster st ->
  (Forall (fun e => split_among e ≠ []) (expenses st) ∧
   (∃ d, calculate_balances st = Ok d ∧ get_settlements st = Ok (settle d))) ∨
  ((∃ e, e ∈ expenses st ∧ split_among e = []) ∧
   calculate_balances st = Raise ZeroDivisionError ∧
   get_settlements st = Raise ZeroDivisionError).
Proof.
  intros Hnames. unfold names_in_roster in Hnames.
  destruct (decide (Forall (expense_accountable (participants st)) (expenses st)))
    as [Hall|Hnot].
  - left. split; [eapply Forall_impl; [exact Hall|]; by intros e (? & _)|].
    destruct (calculate_balances_Ok st Hall) as (d & Hrun & _).
    exists d. split; [done|]. unfold get_settlements. by rewrite Hrun.
  - right. destruct (first_failure _ _ Hnot) as (l1 & e & l2 & Hes & Hl1 & Hbad).
    assert (He : e ∈ expenses st).
    { rewrite Hes. apply elem_of_app. right. left. }
    destruct (calculate_balances_first_failure st l1 l2 e Hes Hl1 Hbad)
      as [[Hsa Hrun]|(n & Hn & Hout & _)].
    + split; [by exists e|]. split; [done|]. by apply get_settlements_Raise.
    + exfalso. rewrite Forall_forall in Hnames.
      destruct (Hnames e He) as [Hpb Hsa]. destruct Hn as [Hn|Hn]; auto.
Qed.

End BalancesReturn.

(** A ledger in which Alice's expense has lost its only sharer. *)
Lemma calculate_balances_raises_only_witness :
  calculate_balances (mk_trip ["Alice"] [mk_expense 1 100 ["Alice"] []])
    = Raise ZeroDivisionError ∧
  ∃ e, e ∈ [mk_expense 1 100 ["Alice"] []] ∧ split_among e = [].
Proof.
  assert (Hrun : calculate_balances (mk_trip ["Alice"] [mk_expense 1 100 ["Alice"] []])
                 = Raise ZeroDivisionError) by reflexivity.
  split; [exact Hrun|].
  destruct (calculate_balances_raises_only _ _ Hrun)
    as [[_ Hempty]|(n & e & Herr & _)]; [exact Hempty | discriminate Herr].
Defined.

(** Scenario A names participants only, and returns. *)
Lemma consistent_ledger_faults_witness :
  names_in_roster scenario_A ∧
  ∃ d, calculate_balances scenario_A = Ok d ∧ get_settlements scenario_A = Ok (settle d).
Proof.
  assert (Hnames : names_in_roster scenario_A) by compute_done.
  split; [exact Hnames|].
  destruct (consistent_ledger_faults scenario_A Hnames)
    as [[_ Hok]|[_ [Hrun _]]]; [exact Hok | discriminate Hrun].
Defined.

(** ** Exact arithmetic: conservation with payers gone, and the order of
    the expenses *)

Section ExactBalances.
Implicit Types (d : dict Q) (e : Expense Q) (es : list (Expense Q)) (st : TripData Q).

Lemma fsum_cons_Q (x : Q) (xs : list Q) : (fsum (x :: xs) == x + fsum xs)%Q.
Proof. unfold fsum. simpl. rewrite fold_left_Qplus_shift. lra. Qed.

Lemma fsum_Permutation_Q (xs ys : list Q) : xs ≡ₚ ys -> (fsum xs == fsum ys)%Q.
Proof.
  induction 1 as [|x xs ys _ IH|x y xs|xs ys zs _ IH1 _ IH2].
  - reflexivity.
  - by rewrite !fsum_cons_Q, IH.
  - rewrite !fsum_cons_Q. lra.
  - by rewrite IH1.
Qed.

Lemma account_expense_total_any e d d' :
  account_expense d e = Ok d' ->
  (total_balance d' ==
   total_balance d - (if decide (paid_by e = []) then amount e else 0))%Q.
Proof.
  intros Hrun. destruct (decide (paid_by e = [])) as [Hpb|Hpb].
  - assert (Hsa : split_among e ≠ []).
    { intros Hsa. by rewrite account_expense_no_sharers in Hrun. }
    rewrite account_expense_no_payers in Hrun by done.
    assert (Hsub : ∀ b : Q, (fsub b (sharer_share e) == b + - sharer_share e)%Q)
      by (intros; cbn [fsub Q_amount]; lra).
    rewrite (modify_each_total _ _ _ _ _ Hsub Hrun).
    pose proof (share_times_count (amount e) (split_among e) Hsa) as Hs.
    unfold sharer_share. lra.
  - rewrite (account_expense_total _ _ _ Hpb Hrun). lra.
Qed.

Lemma unpaid_total_cons e es :
  (unpaid_total (e :: es) ==
   (if decide (paid_by e = []) then amount e else 0) + unpaid_total es)%Q.
Proof.
  unfold unpaid_total. rewrite filter_cons.
  destruct (decide (paid_by e = [])); [|lra].
  by rewrite fmap_cons, fsum_cons_Q.
Qed.

Lemma accounting_total_any es d d' :
  for_each account_expense es d = Ok d' ->
  (total_balance d' == total_balance d - unpaid_total es)%Q.
Proof.
  revert d. induction es as [|e es IH]; intros d; simpl.
  - intros [= <-]. change (unpaid_total []) with 0%Q. lra.
  - intros (d1 & Hd1 & Hd')%bind_Ok.
    rewrite (IH _ Hd'), (account_expense_total_any _ _ _ Hd1), unpaid_total_cons. lra.
Qed.


Lemma balance_formula_Permutation (p : string) es1 es2 :
  es1 ≡ₚ es2 -> (balance_formula p es1 == balance_formula p es2)%Q.
Proof.
  intros Hperm. unfold balance_formula, paid_total, owed_total.
  cbn [fsub Q_amount].
  rewrite (fsum_Permutation_Q (payer_share <$> filter _ es1)
             (payer_share <$> filter (fun e => p ∈ paid_by e) es2))
    by (by rewrite Hperm).
  rewrite (fsum_Permutation_Q (sharer_share <$> filter _ es1)
             (sharer_share <$> filter (fun e => p ∈ split_among e) es2))
    by (by rewrite Hperm).
  reflexivity.
Qed.


End ExactBalances.



(** ** [get_summary] *)

Section SummaryFacts.
Context {A : Type} `{Amount A}.
Implicit Types (e : Expense A) (es : list (Expense A)) (d : dict A)
  (st : TripData A) (c : string).

Lemma get_summary_Ok st :
  ∃ cost, get_summary st =
    Ok {| total_expenses := fsum (amount <$> expenses st);
          cost_per_person := cost;
          num_expenses := length (expenses st);
          category_totals := fold_left add_to_category (expenses st) [] |} ∧
    cost = match participants st with
           | [] => fzero
           | _ => fdiv_len (fsum (amount <$> expenses st)) (length (participants st))
           end.
Proof.
  unfold get_summary. destruct (participants st) as [|p ps]; simpl; by eexists.
Qed.

(** X6: [get_summary] raises on no state, not even where
    [calculate_balances] does: its division is guarded, and with an empty
    roster the cost per person is 0; otherwise it is the total divided by
    the number of participants. *)
Theorem get_summary_never_raises st :
  ∃ s, get_summary st = Ok s ∧
       (participants st = [] -> cost_per_person s = fzero) ∧
       (participants st ≠ [] ->
        cost_per_person s = fdiv_len (total_expenses s) (length (participants st))).
Proof.
  destruct (get_summary_Ok st) as (cost & -> & Hcost). eexists. split; [done|].
  simpl. destruct (participants st); split; done.
Qed.

Lemma category_fold_get c es d :
  dict_get c (fold_left add_to_category es d)
    = fold_left (category_step c) es (dict_get c d).
Proof.
  revert d. induction es as [|e es IH]; intros d; [done|].
  cbn [fold_left]. rewrite IH. f_equal.
  unfold add_to_category, category_step. rewrite dict_get_set.
  destruct (decide (c = category e)) as [->|Hne].
  - by rewrite decide_True.
  - by rewrite decide_False.
Qed.

Lemma category_step_Some c es (v : A) :
  fold_left (category_step c) es (Some v)
    = Some (fold_left fadd (amount <$> filter (fun e => category e = c) es) v).
Proof.
  revert v. induction es as [|e es IH]; intros v; [done|].
  cbn [fold_left]. rewrite filter_cons. unfold category_step at 2.
  destruct (decide (category e = c)); [|apply IH].
  rewrite IH. by rewrite fmap_cons.
Qed.

Lemma category_step_None c es :
  fold_left (category_step c) es None
    = if decide (c ∈ category <$> es) then Some (category_sum c es) else None.
Proof.
  induction es as [|e es IH].
  - cbn [fold_left]. rewrite decide_False; [done|]. apply not_elem_of_nil.
  - cbn [fold_left]. unfold category_step at 2.
    destruct (decide (category e = c)) as [Hc|Hc].
    + rewrite category_step_Some, decide_True by (rewrite fmap_cons, <- Hc; left).
      unfold category_sum, fsum. rewrite filter_cons_True by done.
      by rewrite fmap_cons.
    + rewrite IH. unfold category_sum. rewrite filter_cons_False by done.
      destruct (decide (c ∈ category <$> es)) as [Hin|Hout].
      * rewrite decide_True; [done|]. rewrite fmap_cons. by right.
      * rewrite decide_False; [done|]. rewrite fmap_cons, not_elem_of_cons.
        split; [congruence | done].
Qed.

Lemma add_to_category_keys c e d :
  c ∈ dict_keys (add_to_category d e) ↔ c ∈ dict_keys d ∨ c = category e.
Proof.
  unfold add_to_category.
  destruct (decide (category e ∈ dict_keys d)) as [Hin|Hout].
  - rewrite dict_keys_set_present by done. split; [tauto|].
    intros [?| ->]; done.
  - rewrite dict_keys_set_new by done.
    by rewrite elem_of_app, list_elem_of_singleton.
Qed.

Lemma category_fold_keys c es d :
  c ∈ dict_keys (fold_left add_to_category es d)
    ↔ c ∈ dict_keys d ∨ c ∈ category <$> es.
Proof.
  revert d. induction es as [|e es IH]; intros d.
  - simpl. rewrite elem_of_nil. tauto.
  - cbn [fold_left]. rewrite IH, add_to_category_keys, fmap_cons, elem_of_cons.
    tauto.
Qed.

Lemma category_fold_NoDup es d :
  NoDup (dict_keys d) -> NoDup (dict_keys (fold_left add_to_category es d)).
Proof.
  revert d. induction es as [|e es IH]; intros d Hd; [done|].
  cbn [fold_left]. apply IH. by apply dict_set_NoDup.
Qed.

(** X7: the category totals of [get_summary] have one entry for each
    category that occurs among the expenses and no other, and the entry
    of a category is the sum, taken from 0 in the order of the expenses,
    of the amounts of the expenses of that category. *)
Theorem category_totals_spec st s :
  get_summary st = Ok s ->
  NoDup (dict_keys (category_totals s)) ∧
  (∀ c, c ∈ dict_keys (category_totals s) ↔ c ∈ category <$> expenses st) ∧
  (∀ c, c ∈ category <$> expenses st ->
        dict_get c (category_totals s) = Some (category_sum c (expenses st))).
Proof.
  destruct (get_summary_Ok st) as (cost & -> & _). intros [= <-]. simpl.
  split; [apply category_fold_NoDup; constructor|]. split.
  - intros c. rewrite category_fold_keys. unfold dict_keys. simpl.
    rewrite elem_of_nil. tauto.
  - intros c Hc. rewrite category_fold_get. simpl.
    by rewrite category_step_None, decide_True.
Qed.

Lemma drop_from_expenses_amounts (name : string) es es' :
  drop_from_expenses name es = Ok es' ->
  Forall2 (fun e e' => amount e' = amount e ∧ category e' = category e) es es'.
Proof.
  revert es'. induction es as [|e es IH]; intros es'; simpl.
  - intros [= <-]. constructor.
  - intros (e1 & He1 & Hrest)%bind_Ok.
    apply bind_Ok in Hrest as (es1 & Hes1 & [= <-]).
    constructor; [|by apply IH].
    unfold drop_from_expense in He1.
    apply bind_Ok in He1 as (pb & _ & He1).
    apply bind_Ok in He1 as (sa & _ & [= <-]). done.
Qed.

Lemma same_amounts_summary es es' :
  Forall2 (fun e e' => amount e' = amount e ∧ category e' = category e) es es' ->
  amount <$> es' = amount <$> es ∧
  length es' = length es ∧
  ∀ d, fold_left add_to_category es' d = fold_left add_to_category es d.
Proof.
  induction 1 as [|e e' es es' [Ha Hc] _ (IHa & IHl & IHf)]; [done|].
  split; [by rewrite !fmap_cons, Ha, IHa|]. split; [simpl; by rewrite IHl|].
  intros d. cbn [fold_left]. rewrite IHf. f_equal.
  unfold add_to_category. by rewrite Ha, Hc.
Qed.

(** X8: removing a participant changes neither the total of the
    expenses, nor their number, nor any category total of
    [get_summary]. *)
Theorem remove_participant_keeps_totals (name : string) st (b : bool) st' :
  remove_participant name st = Ok (b, st') ->
  ∃ s s', get_summary st = Ok s ∧ get_summary st' = Ok s' ∧
          total_expenses s' = total_expenses s ∧
          num_expenses s' = num_expenses s ∧
          category_totals s' = category_totals s.
Proof.
  intros Hrun.
  destruct (get_summary_Ok st) as (cost & Hs & _).
  destruct (get_summary_Ok st') as (cost' & Hs' & _).
  do 2 eexists. split; [exact Hs|]. split; [exact Hs'|]. simpl.
  unfold remove_participant in Hrun. case_bool_decide.
  - apply bind_Ok in Hrun as (ps & _ & Hrun).
    apply bind_Ok in Hrun as (es & Hes & [= <- <-]). simpl.
    destruct (same_amounts_summary _ _ (drop_from_expenses_amounts _ _ _ Hes))
      as (Ha & Hl & Hf).
    by rewrite Ha, Hl, Hf.
  - by injection Hrun as <- <-.
Qed.

(** X9: after [add_expense] the summary counts one expense more, its
    total is the old total plus the new amount, the total of the new
    expense's category is its old total (0 if the category is new) plus
    the new amount, and every other category keeps its total. *)
Theorem add_expense_updates_summary (parse : string -> option A)
    (desc : string) (a : PyArg A) (pb sa : list string) (cat now : string)
    st e st' :
  add_expense parse desc a pb sa cat now st = Ok (e, st') ->
  ∃ s s', get_summary st = Ok s ∧ get_summary st' = Ok s' ∧
          num_expenses s' = S (num_expenses s) ∧
          total_expenses s' = fadd (total_expenses s) (amount e) ∧
          dict_get cat (category_totals s')
            = Some (fadd (default fzero (dict_get cat (category_totals s))) (amount e)) ∧
          ∀ c, c ≠ cat ->
               dict_get c (category_totals s') = dict_get c (category_totals s).
Proof.
  intros Hadd.
  destruct (get_summary_Ok st) as (cost & Hs & _).
  destruct (get_summary_Ok st') as (cost' & Hs' & _).
  do 2 eexists. split; [exact Hs|]. split; [exact Hs'|]. simpl.
  unfold add_expense in Hadd. apply bind_Ok in Hadd as (x & _ & [= <- <-]).
  cbn [total_expenses num_expenses category_totals expenses amount].
  rewrite length_app, fmap_app, !fold_left_app.
  set (cats := fold_left add_to_category (expenses st) []).
  cbn [length fold_left fmap list_fmap amount].
  split; [lia|]. split; [by unfold fsum; rewrite fold_left_app|].
  unfold add_to_category. cbn [category amount]. split.
  - rewrite dict_get_set. by rewrite decide_True.
  - intros c Hc. rewrite dict_get_set. by rewrite decide_False.
Qed.

End SummaryFacts.

(** Exact arithmetic: the categories add up. *)
Section SummaryExact.
Implicit Types (e : Expense Q) (es : list (Expense Q)) (d : dict Q) (st : TripData Q).

Lemma total_balance_set_new (k : string) (v : Q) d :
  dict_get k d = None -> (total_balance (dict_set k v d) == total_balance d + v)%Q.
Proof.
  induction d as [|[k0 v0] d IH]; cbn [dict_get dict_set].
  - intros _. rewrite total_balance_cons. change (total_balance []) with 0%Q. lra.
  - destruct (decide (k = k0)); [done|]. intros Hget.
    rewrite !total_balance_cons, (IH Hget). lra.
Qed.

Lemma add_to_category_total e d :
  (total_balance (add_to_category d e) == total_balance d + amount e)%Q.
Proof.
  unfold add_to_category. destruct (dict_get (category e) d) as [v|] eqn:Hget.
  - rewrite (total_balance_set _ _ _ _ Hget).
    change (default fzero (Some v)) with v. cbn [fadd Q_amount]. lra.
  - rewrite (total_balance_set_new _ _ _ Hget).
    change (default fzero None) with 0%Q. cbn [fadd Q_amount]. lra.
Qed.

Lemma category_fold_total es d :
  (total_balance (fold_left add_to_category es d)
   == total_balance d + fsum (amount <$> es))%Q.
Proof.
  revert d. induction es as [|e es IH]; intros d.
  - simpl. change (fsum []) with 0%Q. lra.
  - cbn [fold_left]. rewrite IH, add_to_category_total, fmap_cons, fsum_cons_Q. lra.
Qed.


End SummaryExact.

(** Food 30 and 12, transportation 50. *)
Lemma category_totals_spec_witness :
  ∃ s, get_summary (categories_trip float_of_Z) = Ok s ∧
       NoDup (dict_keys (category_totals s)) ∧
       dict_get "Food" (category_totals s) = Some 42%float ∧
       dict_get "Transportation" (category_totals s) = Some 50%float.
Proof.
  destruct (get_summary (categories_trip float_of_Z)) as [s|] eqn:Hs;
    [|by vm_compute in Hs].
  exists s. split; [reflexivity|].
  destruct (category_totals_spec _ s Hs) as (Hnd & _ & Hget).
  split; [exact Hnd|].
  rewrite (Hget "Food" ltac:(compute_done)),
    (Hget "Transportation" ltac:(compute_done)).
  split; reflexivity.
Defined.

(** Bob leaves Scenario A: the total stays 100. *)
Lemma remove_participant_keeps_totals_witness :
  ∃ st' s s', remove_participant "Bob" scenario_A = Ok (true, st') ∧
              get_summary scenario_A = Ok s ∧ get_summary st' = Ok s' ∧
              total_expenses s' = total_expenses s ∧
              num_expenses s' = num_expenses s ∧
              category_totals s' = category_totals s.
Proof.
  destruct (remove_participant "Bob" scenario_A) as [[b st']|] eqn:Hrun;
    [|by vm_compute in Hrun].
  destruct (remove_participant_keeps_totals _ _ _ _ Hrun) as (s & s' & Hs).
  exists st', s, s'. split; [|exact Hs].
  vm_compute in Hrun. by injection Hrun as <- <-.
Defined.

(** A fourth expense of 8 for food. *)
Lemma add_expense_updates_summary_witness :
  ∃ e st' s s',
    add_expense no_parser "snack" (PyNum 8%float) ["Bob"] ["Alice"; "Bob"]
      "Food" "2024-01-02 09:00" (categories_trip float_of_Z) = Ok (e, st') ∧
    get_summary (categories_trip float_of_Z) = Ok s ∧ get_summary st' = Ok s' ∧
    num_expenses s' = 4%nat ∧
    total_expenses s' = 100%float ∧
    dict_get "Food" (category_totals s') = Some 50%float.
Proof.
  destruct (add_expense no_parser "snack" (PyNum 8%float) ["Bob"] ["Alice"; "Bob"]
              "Food" "2024-01-02 09:00" (categories_trip float_of_Z))
    as [[e st']|] eqn:Hadd; [|by vm_compute in Hadd].
  destruct (add_expense_updates_summary _ _ _ _ _ _ _ _ _ _ Hadd)
    as (s & s' & Hs & Hs' & Hnum & Htotal & Hcat & _).
  exists e, st', s, s'. split; [reflexivity|]. split; [exact Hs|].
  split; [exact Hs'|]. rewrite Hnum, Htotal, Hcat.
  vm_compute in Hadd. injection Hadd as <- <-.
  vm_compute in Hs. injection Hs as <-. by vm_compute.
Defined.


(** ** The shape of the settlements *)

Section SettlementShape.
Context {A : Type} `{Amount A}.
Implicit Types (cs ds : list (string * A)) (b : dict A) (p : string).

Lemma scan_shape (debtor : string) cs :
  ∀ debt,
    let out := scan_transfers_above_cent debtor debt cs in
    out.1.*1 = cs.*1 ∧
    settlement_pair <$> out.2 `sublist_of` (fun c => (debtor, c)) <$> cs.*1 ∧
    Forall (fun r => ∃ t, flt fcent t = true ∧ s_amount r = fround2 t) out.2.
Proof.
  induction cs as [|[creditor credit] cs IH]; intros debt.
  - simpl. split; [done|]. split; constructor.
  - cbn [scan_transfers_above_cent]. destruct (fle debt fcent).
    { cbn [fst snd]. split; [done|]. split; [apply sublist_nil_l | constructor]. }
    destruct (flt fcent (py_min debt credit)) eqn:Hworth.
    + destruct (IH (fsub debt (py_min debt credit))) as (Hnames & Hsub & Hamt).
      destruct (scan_transfers_above_cent debtor _ cs) as [rest' records].
      cbn [fst snd] in *. split; [by rewrite !fmap_cons, Hnames|]. split.
      * rewrite !fmap_cons. by apply sublist_skip.
      * constructor; [by exists (py_min debt credit) | done].
    + destruct (IH debt) as (Hnames & Hsub & Hamt).
      destruct (scan_transfers_above_cent debtor debt cs) as [rest' records].
      cbn [fst snd] in *. split; [by rewrite !fmap_cons, Hnames|]. split; [|done].
      rewrite !fmap_cons. by apply sublist_cons.
Qed.

Lemma greedy_shape ds :
  ∀ cs,
    settlement_pair <$> greedy scan_transfers_above_cent ds cs
      `sublist_of` all_pairs ds.*1 cs.*1 ∧
    Forall (fun r => ∃ t, flt fcent t = true ∧ s_amount r = fround2 t)
      (greedy scan_transfers_above_cent ds cs).
Proof.
  induction ds as [|[debtor debt] ds IH]; intros cs.
  - split; constructor.
  - cbn [greedy]. destruct (scan_shape debtor cs debt) as (Hnames & Hsub & Hamt).
    destruct (scan_transfers_above_cent debtor debt cs) as [cs1 recs1].
    cbn [fst snd] in *. destruct (IH cs1) as [Hsub2 Hamt2]. split.
    + rewrite fmap_app. unfold all_pairs. rewrite fmap_cons, bind_cons.
      apply sublist_app; [done|]. by rewrite <- Hnames.
    + by apply Forall_app.
Qed.

Lemma all_pairs_length (ds cs : list string) :
  length (all_pairs ds cs) = (length ds * length cs)%nat.
Proof.
  unfold all_pairs. induction ds as [|d ds IH]; [done|].
  rewrite bind_cons, length_app, length_fmap, IH. simpl. lia.
Qed.

Lemma all_pairs_nil_r (ds : list string) : all_pairs ds [] = [].
Proof.
  unfold all_pairs. induction ds as [|d ds IH]; [done|].
  by rewrite bind_cons, IH.
Qed.

Lemma all_pairs_NoDup (ds cs : list string) :
  NoDup ds -> NoDup cs -> NoDup (all_pairs ds cs).
Proof.
  intros Hds Hcs. unfold all_pairs. apply NoDup_bind; [| |done].
  - intros d1 d2 [x y] _ _ (c1 & [= -> ->] & _)%list_elem_of_fmap
      (c2 & [= -> _] & _)%list_elem_of_fmap. done.
  - intros d _. apply NoDup_fmap_2; [|done]. by intros c1 c2 [= ->].
Qed.

Lemma debtors_of_names b p :
  p ∈ (debtors_of b).*1 ↔ ∃ a, (p, a) ∈ b ∧ flt a (fneg fcent) = true.
Proof.
  unfold debtors_of. rewrite list_elem_of_fmap. split.
  - intros ([q a'] & -> & ([q' a] & Hin & Hsel)%list_elem_of_omap).
    simpl in *. destruct (flt a (fneg fcent)) eqn:Hlt; [|done].
    injection Hsel as <- <-. by exists a.
  - intros (a & Hin & Hlt). exists (p, fneg a). split; [done|].
    apply list_elem_of_omap. exists (p, a). split; [done|]. simpl. by rewrite Hlt.
Qed.

Lemma creditors_of_names b p :
  p ∈ (creditors_of b).*1 ↔ ∃ a, (p, a) ∈ b ∧ flt fcent a = true.
Proof.
  unfold creditors_of. rewrite list_elem_of_fmap. split.
  - intros ([q a'] & -> & ([q' a] & Hin & Hsel)%list_elem_of_omap).
    simpl in *. destruct (flt fcent a) eqn:Hlt; [|done].
    injection Hsel as <- <-. by exists a.
  - intros (a & Hin & Hlt). exists (p, a). split; [done|].
    apply list_elem_of_omap. exists (p, a). split; [done|]. simpl. by rewrite Hlt.
Qed.

Lemma omap_names_sublist {X : Type} (f : string * A -> option (string * X)) b :
  (∀ k v y, f (k, v) = Some y -> y.1 = k) ->
  (omap f b).*1 `sublist_of` dict_keys b.
Proof.
  intros Hf. unfold dict_keys. induction b as [|[k v] b IH]; [constructor|].
  cbn [omap list_omap]. destruct (f (k, v)) as [y|] eqn:Hy.
  - rewrite !fmap_cons. rewrite (Hf _ _ _ Hy). by apply sublist_skip.
  - rewrite fmap_cons. by apply sublist_cons.
Qed.

Lemma debtors_of_sublist b : (debtors_of b).*1 `sublist_of` dict_keys b.
Proof.
  apply omap_names_sublist. intros k v y. destruct (flt v (fneg fcent)); [|done].
  by intros [= <-].
Qed.

Lemma creditors_of_sublist b : (creditors_of b).*1 `sublist_of` dict_keys b.
Proof.
  apply omap_names_sublist. intros k v y. destruct (flt fcent v); [|done].
  by intros [= <-].
Qed.

(** X11: the settlements come in the order of the two loops: their
    (from, to) pairs are a sublist of the pairs of every debtor with every
    creditor, debtors in roster order and, for each, creditors in roster
    order. So there are at most as many settlements as such pairs, and on
    a mapping (no key twice) no pair is settled twice. *)
Theorem settlements_in_loop_order b :
  settlement_pair <$> settle b
    `sublist_of` all_pairs (debtors_of b).*1 (creditors_of b).*1 ∧
  length (settle b) <= length (debtors_of b) * length (creditors_of b) ∧
  (NoDup (dict_keys b) -> NoDup (settlement_pair <$> settle b)).
Proof.
  rewrite settle_sweep.
  destruct (greedy_shape (debtors_of b) (creditors_of b)) as [Hsub _].
  split; [done|]. split.
  - apply sublist_length in Hsub.
    by rewrite length_fmap, all_pairs_length, !length_fmap in Hsub.
  - intros Hnd. eapply sublist_NoDup; [|exact Hsub]. apply all_pairs_NoDup.
    + eapply sublist_NoDup; [exact Hnd | apply debtors_of_sublist].
    + eapply sublist_NoDup; [exact Hnd | apply creditors_of_sublist].
Qed.

(** X12: every settlement goes from a participant whose balance is below
    -0.01 to one whose balance is above 0.01, and its amount is a
    transfer above 0.01 rounded to two places. *)
Theorem settlements_from_debtors_to_creditors b s :
  s ∈ settle b ->
  (∃ a, (s_from s, a) ∈ b ∧ flt a (fneg fcent) = true) ∧
  (∃ a, (s_to s, a) ∈ b ∧ flt fcent a = true) ∧
  (∃ t, flt fcent t = true ∧ s_amount s = fround2 t).
Proof.
  rewrite settle_sweep. intros Hs.
  destruct (greedy_shape (debtors_of b) (creditors_of b)) as [Hsub Hamt].
  assert (Hpair : settlement_pair s ∈ all_pairs (debtors_of b).*1 (creditors_of b).*1).
  { eapply elem_of_sublist; [|exact Hsub]. by apply list_elem_of_fmap_2. }
  unfold all_pairs in Hpair.
  apply list_elem_of_bind in Hpair as (d & (c & [= Hd Hc] & Hcin)%list_elem_of_fmap & Hdin).
  split; [apply debtors_of_names; by rewrite Hd|].
  split; [apply creditors_of_names; by rewrite Hc|].
  rewrite Forall_forall in Hamt. by apply Hamt.
Qed.

Lemma debtors_of_none b :
  Forall (fun '(p, a) => flt a (fneg fcent) = false) b -> debtors_of b = [].
Proof.
  unfold debtors_of. induction b as [|[p a] b IH]; intros Hnone; [done|].
  apply Forall_cons in Hnone as [Hpa Hnone]. cbn [omap list_omap].
  rewrite Hpa. by apply IH.
Qed.

Lemma creditors_of_none b :
  Forall (fun '(p, a) => flt fcent a = false) b -> creditors_of b = [].
Proof.
  unfold creditors_of. induction b as [|[p a] b IH]; intros Hnone; [done|].
  apply Forall_cons in Hnone as [Hpa Hnone]. cbn [omap list_omap].
  rewrite Hpa. by apply IH.
Qed.

(** X13: when no balance is below -0.01, or none is above 0.01, no
    settlement is made. *)
Theorem nothing_to_settle b :
  Forall (fun '(p, a) => flt a (fneg fcent) = false) b ∨
  Forall (fun '(p, a) => flt fcent a = false) b ->
  settle b = [].
Proof.
  intros Hside.
  destruct (greedy_shape (debtors_of b) (creditors_of b)) as [Hsub _].
  rewrite <- settle_sweep in Hsub.
  assert (Hempty : all_pairs (debtors_of b).*1 (creditors_of b).*1 = []).
  { destruct Hside as [Hnone|Hnone].
    - by rewrite (debtors_of_none b Hnone).
    - rewrite (creditors_of_none b Hnone). apply all_pairs_nil_r. }
  rewrite Hempty in Hsub. apply sublist_nil_r in Hsub.
  by apply fmap_nil_inv in Hsub.
Qed.

End SettlementShape.

(** Scenario A: Bob, at -50, pays Alice, at 50. *)
Lemma settlements_from_debtors_to_creditors_witness :
  {| s_from := "Bob"; s_to := "Alice"; s_amount := 50%float |}
    ∈ settle scenario_A_balances ∧
  (∃ a, ("Bob", a) ∈ scenario_A_balances ∧ flt a (fneg fcent) = true) ∧
  (∃ a, ("Alice", a) ∈ scenario_A_balances ∧ flt fcent a = true).
Proof.
  assert (Hin : {| s_from := "Bob"; s_to := "Alice"; s_amount := 50%float |}
                  ∈ settle scenario_A_balances) by (vm_compute; left).
  split; [exact Hin|].
  destruct (settlements_from_debtors_to_creditors _ _ Hin) as (Hfrom & Hto & _).
  by split.
Defined.

(** Balances of 0.004, -0.004 and 0 are left alone. *)
Lemma nothing_to_settle_witness :
  Forall (fun '(p, a) => flt a (fneg fcent) = false) settled_balances ∧
  settle settled_balances = [].
Proof.
  assert (Hnone : Forall (fun '(p, a) => flt a (fneg fcent) = false) settled_balances)
    by (repeat constructor).
  split; [exact Hnone|]. apply nothing_to_settle. by left.
Defined.

(** ** Exact arithmetic: no settlement below a cent *)

Lemma Qround2_above_cent (t : Q) : (1 # 100 < t)%Q -> (1 # 100 <= fround2 t)%Q.
Proof.
  destruct t as [a b]. unfold Qlt. simpl. intros Hlt.
  unfold Qround2. simpl. destruct (Z.leb_spec 0 (a * 100)) as [Hpos|Hneg]; [|lia].
  unfold Qle. simpl.
  assert (Hone : (1 <= round_half_even_div (a * 100) (Z.pos b))%Z).
  { unfold round_half_even_div.
    assert (1 <= a * 100 / Z.pos b)%Z.
    { apply Z.div_le_lower_bound; lia. }
    destruct (_ ?= _)%Z; [destruct (Z.even _)|..]; lia. }
  lia.
Qed.



(** ** Invariants of the ledger *)

Section LedgerInvariants.
Context {A : Type} `{Amount A}.
Variable float_of_string : string -> option A.
Implicit Types (st : TripData A) (c : LedgerCall A) (name : string).

Lemma py_list_remove_sublist name (l l' : list string) :
  py_list_remove name l = Ok l' -> l' `sublist_of` l.
Proof.
  revert l'. induction l as [|y l IH]; intros l'; simpl; [done|].
  destruct (decide (name = y)) as [->|Hne].
  - intros [= <-]. by apply sublist_cons.
  - intros (l1 & Hl1 & [= <-])%bind_Ok. apply sublist_skip. by apply IH.
Qed.

Lemma run_call_roster_clean st c st' :
  roster_clean st -> run_call float_of_string st c = Ok st' -> roster_clean st'.
Proof.
  intros [Hnd Hempty]. destruct c as [name|name|d a pb sa cat now|id]; simpl.
  - intros [= <-]. unfold add_participant.
    destruct (String.eqb_spec name "") as [->|Hne]; [done|].
    case_bool_decide as Hin; simpl; [done|]. unfold roster_clean. simpl. split.
    + apply NoDup_app. split; [done|]. split; [|apply NoDup_singleton].
      intros x Hx ->%list_elem_of_singleton. done.
    + rewrite elem_of_app, list_elem_of_singleton. intros [?|?]; done.
  - intros ([b st1] & Hrun & [= <-])%bind_Ok.
    unfold remove_participant in Hrun. case_bool_decide.
    + apply bind_Ok in Hrun as (ps & Hps & Hrun).
      apply bind_Ok in Hrun as (es & _ & [= _ <-]). simpl.
      apply py_list_remove_sublist in Hps. split.
      * by eapply sublist_NoDup.
      * intros Hin. apply Hempty. by eapply elem_of_sublist.
    + by injection Hrun as _ <-.
  - intros ([e st1] & Hrun & [= <-])%bind_Ok.
    unfold add_expense in Hrun. apply bind_Ok in Hrun as (x & _ & [= _ <-]).
    by split.
  - intros [= <-]. by split.
Qed.

(** X15: whatever sequence of the four ledger operations runs on a state
    whose roster has no repetition and no empty name, the roster of the
    state it ends in has none either. *)
Theorem roster_stays_clean (calls : list (LedgerCall A)) st st' :
  roster_clean st ->
  run_calls float_of_string calls st = Ok st' ->
  roster_clean st'.
Proof.
  unfold run_calls. revert st. induction calls as [|c calls IH]; intros st Hclean; simpl.
  - by intros [= <-].
  - intros (st1 & Hst1 & Hrest)%bind_Ok.
    apply (IH st1); [|done]. by eapply run_call_roster_clean.
Qed.

Lemma filter_subseteq_filter (name : string) (l roster : list string) :
  l ⊆ roster ->
  filter (fun x => x ≠ name) l ⊆ filter (fun x => x ≠ name) roster.
Proof.
  intros Hl x [Hx Hin]%list_elem_of_filter. apply list_elem_of_filter. auto.
Qed.

(** X16: the ledger stays consistent under each of its operations: if
    the name lists are sets and every expense names participants only,
    they still are and do after adding a participant, removing one,
    deleting an expense, and adding an expense whose payers and sharers
    are sets of participants. *)
Theorem ledger_stays_consistent st c st' :
  names_are_sets st -> names_in_roster st ->
  call_admissible st c ->
  run_call float_of_string st c = Ok st' ->
  names_are_sets st' ∧ names_in_roster st'.
Proof.
  intros [Hroster Hsets] Hnames Hadm.
  unfold names_in_roster in *.
  destruct c as [name|name|d a pb sa cat now|id]; simpl.
  - intros [= <-]. unfold add_participant.
    destruct (String.eqb_spec name "") as [->|Hne]; [by repeat split|].
    case_bool_decide as Hin; simpl; [by repeat split|].
    unfold names_are_sets, names_in_roster. simpl. split; [split; [|done]|].
    + apply NoDup_app. split; [done|]. split; [|apply NoDup_singleton].
      intros x Hx ->%list_elem_of_singleton. done.
    + eapply Forall_impl; [exact Hnames|]. intros e [Hpb Hsa].
      split; intros x Hx; apply elem_of_app; left; auto.
  - intros ([b st1] & Hrun & [= <-])%bind_Ok.
    unfold remove_participant in Hrun. case_bool_decide as Hin.
    + rewrite (py_list_remove_NoDup _ _ Hroster Hin) in Hrun.
      destruct (drop_from_expenses_sets name _ Hsets) as (es' & Hes & Hall).
      rewrite Hes in Hrun. injection Hrun as _ <-.
      unfold names_are_sets, names_in_roster. simpl.
      assert (Heach : Forall (fun e' : Expense A =>
                (NoDup (paid_by e') ∧ NoDup (split_among e')) ∧
                paid_by e' ⊆ filter (fun x => x ≠ name) (participants st) ∧
                split_among e' ⊆ filter (fun x => x ≠ name) (participants st)) es').
      { clear Hes. induction Hall as [|e e' es es' He _ IH]; [constructor|].
        apply Forall_cons in Hsets as [[Hp Hs] Hsets].
        apply Forall_cons in Hnames as [[Hpin Hsin] Hnames].
        destruct He as (_ & _ & _ & _ & _ & Hpe & Hse).
        constructor; [|by apply IH]. rewrite Hpe, Hse.
        split; [split; by apply NoDup_filter|].
        split; by apply filter_subseteq_filter. }
      split; [split; [by apply NoDup_filter|]|].
      * eapply Forall_impl; [exact Heach|]. by intros e [? _].
      * eapply Forall_impl; [exact Heach|]. by intros e [_ ?].
    + injection Hrun as _ <-. by repeat split.
  - intros ([e st1] & Hrun & [= <-])%bind_Ok.
    unfold add_expense in Hrun. apply bind_Ok in Hrun as (x & _ & [= _ <-]).
    destruct Hadm as (Hp & Hs & Hpin & Hsin).
    unfold names_are_sets, names_in_roster. simpl.
    split; [split; [done|]|]; apply Forall_app; split; try done;
      by repeat constructor.
  - intros [= <-]. unfold names_are_sets, names_in_roster, remove_expense. simpl.
    split; [split; [done|]|].
    + apply Forall_forall. intros e [_ He]%list_elem_of_filter.
      rewrite Forall_forall in Hsets. auto.
    + apply Forall_forall. intros e [_ He]%list_elem_of_filter.
      rewrite Forall_forall in Hnames. auto.
Qed.

End LedgerInvariants.

(** From the empty trip, the sample calls end with Bob alone. *)
Lemma roster_stays_clean_witness :
  roster_clean (reset_trip : TripData float) ∧
  ∃ st, run_calls no_parser sample_calls reset_trip = Ok st ∧
        participants st = ["Bob"] ∧ roster_clean st.
Proof.
  assert (Hclean : roster_clean (reset_trip : TripData float)) by compute_done.
  split; [exact Hclean|].
  destruct (run_calls no_parser sample_calls reset_trip) as [st|] eqn:Hrun;
    [|by vm_compute in Hrun].
  exists st. split; [reflexivity|].
  split; [|exact (roster_stays_clean no_parser _ _ _ Hclean Hrun)].
  vm_compute in Hrun. by injection Hrun as <-.
Defined.

(** Scenario A stays consistent when Bob is removed. *)
Lemma ledger_stays_consistent_witness :
  names_are_sets scenario_A ∧ names_in_roster scenario_A ∧
  ∃ st, run_call no_parser scenario_A (RemoveParticipant "Bob") = Ok st ∧
        names_are_sets st ∧ names_in_roster st.
Proof.
  assert (Hsets : names_are_sets scenario_A) by compute_done.
  assert (Hnames : names_in_roster scenario_A) by compute_done.
  split; [exact Hsets|]. split; [exact Hnames|].
  destruct (run_call no_parser scenario_A (RemoveParticipant "Bob")) as [st|] eqn:Hrun;
    [|by vm_compute in Hrun].
  exists st. split; [reflexivity|].
  exact (ledger_stays_consistent no_parser _ (RemoveParticipant "Bob") _
           Hsets Hnames I Hrun).
Defined.

(** ** The expense form *)

Section ExpenseFormFacts.
Context {A : Type} `{Amount A}.
Variable float_of_string : string -> option A.
Implicit Types (st : TripData A) (f : ExpenseForm) (boxes : dict bool).

Lemma selected_names_sublist boxes : selected_names boxes `sublist_of` dict_keys boxes.
Proof.
  unfold selected_names, dict_keys. induction boxes as [|[p sel] boxes IH]; [constructor|].
  cbn [omap list_omap]. rewrite fmap_cons.
  destruct sel; [by apply sublist_skip | by apply sublist_cons].
Qed.

Lemma uncheck_all_keys boxes : dict_keys (uncheck_all boxes) = dict_keys boxes.
Proof.
  unfold uncheck_all, dict_keys. rewrite <- list_fmap_compose.
  apply list_fmap_ext. by intros i [p sel].
Qed.

Lemma uncheck_all_selected boxes : selected_names (uncheck_all boxes) = [].
Proof.
  unfold uncheck_all, selected_names. induction boxes as [|[p sel] boxes IH]; [done|].
  by rewrite fmap_cons.
Qed.

Lemma refresh_matches st f :
  form_matches st (AddExpenseScreen_refresh_participants st f).
Proof. by split. Qed.

Lemma matching_boxes_selected st boxes :
  dict_keys boxes = dict_keys (dict_from_keys (participants st) false) ->
  NoDup (selected_names boxes) ∧ selected_names boxes ⊆ participants st.
Proof.
  intros Hkeys. pose proof (selected_names_sublist boxes) as Hsub.
  rewrite Hkeys in Hsub. split.
  - eapply sublist_NoDup; [apply (dict_from_keys_NoDup_keys (participants st) false) | exact Hsub].
  - intros x Hx. apply (dict_from_keys_keys (participants st) false).
    by eapply elem_of_sublist.
Qed.

Lemma save_expense_cases (now : string) f st :
  ((strip (description_input f) = "" ∨ strip (amount_input f) = "" ∨
    float_of_string (strip (amount_input f)) = None ∨
    selected_names (paid_by_checkboxes f) = [] ∨
    selected_names (split_among_checkboxes f) = []) ∧
   ∃ msg, save_expense float_of_string now f st
          = Ok (ShowPopup "Error" msg, f, st)) ∨
  (∃ x, float_of_string (strip (amount_input f)) = Some x ∧
        strip (description_input f) ≠ "" ∧ strip (amount_input f) ≠ "" ∧
        selected_names (paid_by_checkboxes f) ≠ [] ∧
        selected_names (split_among_checkboxes f) ≠ [] ∧
        save_expense float_of_string now f st
          = Ok (ShowPopup "Success" "Expense added successfully!",
                cleared_form f,
                {| trip_name := trip_name st;
                   participants := participants st;
                   expenses := expenses st ++ [form_expense x now f st] |})).
Proof.
  unfold save_expense.
  destruct (String.eqb_spec (strip (description_input f)) "") as [Hd|Hd].
  { left. split; [by left | by eexists]. }
  destruct (String.eqb_spec (strip (amount_input f)) "") as [Ha|Ha].
  { left. split; [right; by left | by eexists]. }
  cbn [orb].
  destruct (float_of_string (strip (amount_input f))) as [x|] eqn:Hx; cycle 1.
  { left. split; [do 2 right; by left | by eexists]. }
  destruct (selected_names (paid_by_checkboxes f)) as [|p ps] eqn:Hp.
  { left. split; [do 3 right; by left | by eexists]. }
  destruct (selected_names (split_among_checkboxes f)) as [|q qs] eqn:Hq.
  { left. split; [do 4 right; done | by eexists]. }
  right. exists x. split; [done|]. split; [done|]. split; [done|].
  split; [done|]. split; [done|].
  unfold form_expense, new_expense, cleared_form. by rewrite Hp, Hq.
Qed.


(** X18: when the boxes of the form are those of the roster,
    [save_expense] keeps the ledger consistent -- name lists are sets,
    expenses name participants only -- and the boxes stay those of the
    roster. *)
Theorem save_expense_keeps_consistent (now : string) f st popup f' st' :
  form_matches st f ->
  names_are_sets st -> names_in_roster st ->
  save_expense float_of_string now f st = Ok (popup, f', st') ->
  names_are_sets st' ∧ names_in_roster st' ∧ form_matches st' f'.
Proof.
  intros [Hpb Hsa] [Hroster Hsets] Hnames Hsave.
  destruct (save_expense_cases now f st)
    as [[_ [msg Hrun]]|(x & _ & _ & _ & _ & _ & Hrun)];
    rewrite Hrun in Hsave; injection Hsave as <- <- <-.
  { by repeat split. }
  destruct (matching_boxes_selected st _ Hpb) as [Hpnd Hpin].
  destruct (matching_boxes_selected st _ Hsa) as [Hsnd Hsin].
  unfold names_are_sets, names_in_roster, form_matches. simpl.
  split; [split; [done|]|split; [|by rewrite !uncheck_all_keys]];
    apply Forall_app; split; try done; by repeat constructor.
Qed.

(** X19: when the boxes of the form are those of the roster, an expense
    saved through the form never breaks the balances: if
    [calculate_balances] returned before [save_expense], it returns
    after. *)
Theorem save_expense_keeps_balances (now : string) f st popup f' st' d :
  form_matches st f ->
  calculate_balances st = Ok d ->
  save_expense float_of_string now f st = Ok (popup, f', st') ->
  ∃ d', calculate_balances st' = Ok d'.
Proof.
  intros [Hpb Hsa] Hrun Hsave.
  destruct (save_expense_cases now f st)
    as [[_ [msg Hcase]]|(x & _ & _ & _ & _ & Hsome & Hcase)];
    rewrite Hcase in Hsave; injection Hsave as <- <- <-.
  { by exists d. }
  destruct (matching_boxes_selected st _ Hpb) as [_ Hpin].
  destruct (matching_boxes_selected st _ Hsa) as [_ Hsin].
  destruct (calculate_balances_Ok
              {| trip_name := trip_name st; participants := participants st;
                 expenses := expenses st ++ [form_expense x now f st] |})
    as (d' & Hd' & _); [|by exists d'].
  simpl. apply Forall_app. split; [by eapply calculate_balances_Ok_inv|].
  by repeat constructor.
Qed.

End ExpenseFormFacts.

(** The lunch form saved on Scenario A. *)
Lemma save_expense_keeps_consistent_witness :
  form_matches scenario_A lunch_form ∧
  names_are_sets scenario_A ∧ names_in_roster scenario_A ∧
  save_expense thirty_parser "2024-01-01 12:30" lunch_form scenario_A
    = Ok (ShowPopup "Success" "Expense added successfully!",
          cleared_form lunch_form, lunch_ledger) ∧
  names_are_sets lunch_ledger ∧ names_in_roster lunch_ledger ∧
  form_matches lunch_ledger (cleared_form lunch_form).
Proof.
  assert (Hform : form_matches scenario_A lunch_form) by (split; reflexivity).
  assert (Hsets : names_are_sets scenario_A) by compute_done.
  assert (Hnames : names_in_roster scenario_A) by compute_done.
  assert (Hsave : save_expense thirty_parser "2024-01-01 12:30" lunch_form scenario_A
                  = Ok (ShowPopup "Success" "Expense added successfully!",
                        cleared_form lunch_form, lunch_ledger))
    by (vm_compute; reflexivity).
  split; [exact Hform|]. split; [exact Hsets|]. split; [exact Hnames|].
  split; [exact Hsave|].
  exact (save_expense_keeps_consistent thirty_parser _ _ _ _ _ _
           Hform Hsets Hnames Hsave).
Defined.

(** The balances of Scenario A are still computed after the lunch. *)
Lemma save_expense_keeps_balances_witness :
  form_matches scenario_A lunch_form ∧
  calculate_balances scenario_A = Ok [("Alice", 50%float); ("Bob", (-50)%float)] ∧
  save_expense thirty_parser "2024-01-01 12:30" lunch_form scenario_A
    = Ok (ShowPopup "Success" "Expense added successfully!",
          cleared_form lunch_form, lunch_ledger) ∧
  ∃ d', calculate_balances lunch_ledger = Ok d'.
Proof.
  assert (Hform : form_matches scenario_A lunch_form) by (split; reflexivity).
  assert (Hbal : calculate_balances scenario_A
                 = Ok [("Alice", 50%float); ("Bob", (-50)%float)])
    by (vm_compute; reflexivity).
  assert (Hsave : save_expense thirty_parser "2024-01-01 12:30" lunch_form scenario_A
                  = Ok (ShowPopup "Success" "Expense added successfully!",
                        cleared_form lunch_form, lunch_ledger))
    by (vm_compute; reflexivity).
  split; [exact Hform|]. split; [exact Hbal|]. split; [exact Hsave|].
  exact (save_expense_keeps_balances thirty_parser _ _ _ _ _ _ _
           Hform Hbal Hsave).
Defined.

(** ** Names entered on the main screen *)

Lemma lstrip_head s :
  lstrip s = "" ∨ ∃ c t, lstrip s = String c t ∧ is_space c = false.
Proof.
  induction s as [|c s IH]; [by left|]. cbn [lstrip].
  destruct (is_space c) eqn:Hc; [exact IH|]. right. by exists c, s.
Qed.

Lemma rstrip_rstrip s : rstrip (rstrip s) = rstrip s.
Proof.
  induction s as [|c s IH]; [done|]. cbn [rstrip].
  destruct (rstrip s) as [|c' t] eqn:Hr.
  - destruct (is_space c) eqn:Hc; [done|]. cbn [rstrip]. by rewrite Hc.
  - cbn [rstrip] in IH |- *. by rewrite IH.
Qed.

Lemma rstrip_head c t :
  is_space c = false -> ∃ t', rstrip (String c t) = String c t'.
Proof.
  intros Hc. cbn [rstrip]. destruct (rstrip t) as [|c' t'].
  - rewrite Hc. by eexists.
  - by eexists.
Qed.

Lemma strip_trimmed s : trimmed (strip s).
Proof.
  unfold trimmed, strip. split; [|apply rstrip_rstrip].
  destruct (lstrip_head s) as [->|(c & t & -> & Hc)]; [done|].
  destruct (rstrip_head c t Hc) as [t' ->]. cbn [lstrip]. by rewrite Hc.
Qed.

Lemma trimmed_strip s : trimmed s -> strip s = s.
Proof. intros [Hl Hr]. unfold strip. by rewrite Hl, Hr. Qed.

Lemma trimmed_roster_strip (l : list string) :
  Forall trimmed l -> strip <$> l = l.
Proof.
  induction 1 as [|s l Hs _ IH]; [done|].
  by rewrite fmap_cons, IH, (trimmed_strip s Hs).
Qed.


